(** * mzML Browser: the spectral index and its navigation

    A shallow embedding of [mzml_browser.py] (class [MzMLBrowser]): the index
    build of [load_mzml_file], the navigation handlers [on_click],
    [on_left_arrow] and [on_right_arrow], the spectrum arrays computed by
    [update_plots], and the drag-zoom handlers.

    Modelling conventions.
    - Python floats are modelled as rationals [Q]: exact arithmetic, no NaN
      and no infinities.
    - The dictionary [self.spectra_data] is a [gmap nat entry]; it is an
      attribute of the browser object and is mutated in place by the loop of
      [load_mzml_file].
    - An attribute lookup on a parsed spectrum may raise; every statement of
      the source that can raise is a step of a state-and-exception monad in
      which the mutations made before the raise persist, as in Python.
    - The plotting surface and the widgets are outside the model; of the
      widgets only the presence of the loading label, the status message and
      the committed zoom rectangle of the spectrum plot are kept. *)

From Stdlib Require Import QArith Qabs Qminmax Lqa.
From stdpp Require Import gmap list strings sorting.

Local Close Scope Q_scope.
Local Open Scope nat_scope.

(** ** Exceptions and the state-and-exception monad *)

Inductive exn : Type :=
  | LookupRaised      (* an attribute lookup of the parser raised *)
  | ReaderError       (* the reader could not open or read the file *)
  | NoMS1SpectraError (* ValueError("No MS1 spectra found in the mzML file") *)
  | TypeError
  | UnboundLocalError
  | ValueError        (* a ValueError of numpy, matplotlib or [list.index] *)
  | IndexError
  | KeyError.

Inductive result (A : Type) : Type :=
  | Ok (a : A)
  | Raise (e : exn).
Arguments Ok {A} a.
Arguments Raise {A} e.

Definition M (S A : Type) : Type := S -> S * result A.

Global Instance M_ret {S} : MRet (M S) := fun A a s => (s, Ok a).

Global Instance M_bind {S} : MBind (M S) := fun A B k m s =>
  match m s with
  | (s', Ok a) => k a s'
  | (s', Raise e) => (s', Raise e)
  end.

Definition raise {S A} (e : exn) : M S A := fun s => (s, Raise e).

Definition modify {S} (f : S -> S) : M S unit := fun s => (f s, Ok tt).

(** [try: ... except Exception: continue]: the exception is absorbed, the
    state reached when it was raised is kept. *)
Definition try_except {S} (m : M S unit) : S -> S := fun s => fst (m s).

(** ** Parsed spectra, as the reader yields them *)

(** The outcome of an attribute lookup on a spectrum. *)
Inductive attr (A : Type) : Type :=
  | Raises
  | Returns (a : A).
Arguments Raises {A}.
Arguments Returns {A} a.

(** The value of [spectrum.mz] or [spectrum.i]: [None], an array, or a value
    of another type, one that has no [len()]. *)
Inductive pyval : Type :=
  | PyNone
  | PyArray (a : list Q)
  | PyObject.

Record spectrum : Type := {
  ms_level : attr nat;
  scan_time_in_minutes : attr Q;
  TIC : attr Q;
  mz : attr pyval;
  sp_i : attr pyval          (* spectrum.i *)
}.

(** ** The browser object *)

(** [self.spectra_data[i]]: the dictionary with keys 'rt', 'mz',
    'intensities' and 'index'. *)
Record entry : Type := {
  e_rt : Q;
  e_mz : pyval;
  e_intensities : pyval;
  e_index : nat
}.

(** [self.tic_data]: the dictionary with keys 'times', 'intensities' and
    'indices'. *)
Record tic : Type := {
  times : list Q;
  intensities : list Q;
  indices : list nat
}.

Inductive status_msg : Type :=
  | Ready
  | Loading (file : string)
  | LoadingCancelled
  | Loaded (file : string) (n : nat)
  | SelectedAt (t : Q)
  | SelectedLeft (t : Q)
  | SelectedRight (t : Q)
  | ClickAndDrag
  | Zoomed.

Record browser : Type := {
  mzml_file : option string;
  tic_data : option tic;
  spectra_data : gmap nat entry;
  current_spectrum_index : nat;
  loading_label : bool;                       (* the loading window is shown *)
  zoom_active : bool;
  zoom_start : option (option Q * option Q);
  zoom_end : option (option Q * option Q);
  ax2_lim : option ((Q * Q) * (Q * Q));       (* None: autoscaled *)
  status : status_msg
}.

(** [__init__] followed by [create_widgets]. *)
Definition init : browser := {|
  mzml_file := None;
  tic_data := None;
  spectra_data := ∅;
  current_spectrum_index := 0;
  loading_label := false;
  zoom_active := false;
  zoom_start := None;
  zoom_end := None;
  ax2_lim := None;
  status := Ready
|}.

Definition set_mzml_file (f : option string) (s : browser) : browser :=
  {| mzml_file := f; tic_data := tic_data s; spectra_data := spectra_data s;
     current_spectrum_index := current_spectrum_index s;
     loading_label := loading_label s; zoom_active := zoom_active s;
     zoom_start := zoom_start s; zoom_end := zoom_end s;
     ax2_lim := ax2_lim s; status := status s |}.

Definition set_tic_data (t : option tic) (s : browser) : browser :=
  {| mzml_file := mzml_file s; tic_data := t; spectra_data := spectra_data s;
     current_spectrum_index := current_spectrum_index s;
     loading_label := loading_label s; zoom_active := zoom_active s;
     zoom_start := zoom_start s; zoom_end := zoom_end s;
     ax2_lim := ax2_lim s; status := status s |}.

Definition set_spectra_data (d : gmap nat entry) (s : browser) : browser :=
  {| mzml_file := mzml_file s; tic_data := tic_data s; spectra_data := d;
     current_spectrum_index := current_spectrum_index s;
     loading_label := loading_label s; zoom_active := zoom_active s;
     zoom_start := zoom_start s; zoom_end := zoom_end s;
     ax2_lim := ax2_lim s; status := status s |}.

Definition set_current_spectrum_index (i : nat) (s : browser) : browser :=
  {| mzml_file := mzml_file s; tic_data := tic_data s;
     spectra_data := spectra_data s; current_spectrum_index := i;
     loading_label := loading_label s; zoom_active := zoom_active s;
     zoom_start := zoom_start s; zoom_end := zoom_end s;
     ax2_lim := ax2_lim s; status := status s |}.

Definition set_loading_label (b : bool) (s : browser) : browser :=
  {| mzml_file := mzml_file s; tic_data := tic_data s;
     spectra_data := spectra_data s;
     current_spectrum_index := current_spectrum_index s;
     loading_label := b; zoom_active := zoom_active s;
     zoom_start := zoom_start s; zoom_end := zoom_end s;
     ax2_lim := ax2_lim s; status := status s |}.

Definition set_zoom (a : bool) (zs ze : option (option Q * option Q))
    (s : browser) : browser :=
  {| mzml_file := mzml_file s; tic_data := tic_data s;
     spectra_data := spectra_data s;
     current_spectrum_index := current_spectrum_index s;
     loading_label := loading_label s; zoom_active := a;
     zoom_start := zs; zoom_end := ze;
     ax2_lim := ax2_lim s; status := status s |}.

Definition set_ax2_lim (v : option ((Q * Q) * (Q * Q))) (s : browser) : browser :=
  {| mzml_file := mzml_file s; tic_data := tic_data s;
     spectra_data := spectra_data s;
     current_spectrum_index := current_spectrum_index s;
     loading_label := loading_label s; zoom_active := zoom_active s;
     zoom_start := zoom_start s; zoom_end := zoom_end s;
     ax2_lim := v; status := status s |}.

Definition set_status (m : status_msg) (s : browser) : browser :=
  {| mzml_file := mzml_file s; tic_data := tic_data s;
     spectra_data := spectra_data s;
     current_spectrum_index := current_spectrum_index s;
     loading_label := loading_label s; zoom_active := zoom_active s;
     zoom_start := zoom_start s; zoom_end := zoom_end s;
     ax2_lim := ax2_lim s; status := m |}.

(** [hide_loading_indicator]: destroys the loading window and forgets the
    label. *)
Definition hide_loading_indicator (s : browser) : browser :=
  set_loading_label false s.

(** [show_loading_indicator]. *)
Definition show_loading_indicator (s : browser) : browser :=
  set_loading_label true s.

(** [cancel_loading], the command of the Cancel button. *)
Definition cancel_loading (s : browser) : browser :=
  set_status LoadingCancelled (hide_loading_indicator s).

(** ** numpy: comparison masks, boolean indexing, argmin, argsort *)

Definition Qlt_bool (x y : Q) : bool := negb (Qle_bool y x).

Global Instance Qlt_decision (x y : Q) : Decision (x < y)%Q.
Proof.
  destruct (Qlt_le_dec x y) as [H|H]; [left; exact H|right; apply Qle_not_lt, H].
Defined.

(** [a[mask]] once the lengths are known to agree: the elements of [a] at
    the positions where [mask] is true, in their order. *)
Fixpoint compress (mask : list bool) (a : list Q) : list Q :=
  match mask, a with
  | b :: mask', x :: a' => if b then x :: compress mask' a' else compress mask' a'
  | _, _ => []
  end.

(** [a[mask]] for a boolean array [mask]: numpy raises IndexError when the
    lengths differ. *)
Definition mask_index (a : list Q) (mask : list bool) : result (list Q) :=
  if decide (length a = length mask) then Ok (compress mask a)
  else Raise IndexError.

(** [intensities > 0]. *)
Definition non_zero_mask (a : list Q) : list bool :=
  (fun x => Qlt_bool 0%Q x) <$> a.

(** [np.abs(times - t)]. *)
Definition abs_diff (ts : list Q) (t : Q) : list Q :=
  (fun x => Qabs (x - t)) <$> ts.

(** [np.argmin]: the position of the first occurrence of the minimum;
    ValueError on an empty array. *)
Fixpoint argmin_from (best : nat) (bv : Q) (i : nat) (a : list Q) : nat :=
  match a with
  | [] => best
  | x :: a' =>
      if Qlt_bool x bv then argmin_from i x (S i) a'
      else argmin_from best bv (S i) a'
  end.

Definition argmin (a : list Q) : result nat :=
  match a with
  | [] => Raise ValueError
  | x :: a' => Ok (argmin_from 0 x 1 a')
  end.

(** [np.argsort]: by its contract the result lists every position of the
    array once, and the values read in that order never decrease. Which of
    two equal values comes first is left to the sorting algorithm, so the
    function is taken through this interface. *)
Class ArgSort : Type := {
  argsort : list Q -> list nat;
  argsort_perm : forall a, argsort a ≡ₚ seq 0 (length a);
  argsort_sorted : forall a,
    StronglySorted (fun i j => (nth i a 0%Q <= nth j a 0%Q)%Q) (argsort a)
}.

(** One implementation of the contract: a merge sort of the positions. *)
Definition value_le (a : list Q) (i j : nat) : Prop :=
  (nth i a 0%Q <= nth j a 0%Q)%Q.

Global Instance value_le_dec a i j : Decision (value_le a i j).
Proof.
  unfold value_le.
  destruct (Qlt_le_dec (nth j a 0%Q) (nth i a 0%Q)) as [H|H].
  - right. apply Qlt_not_le, H.
  - left. exact H.
Defined.

Global Instance value_le_total a : Total (value_le a).
Proof.
  intros i j. unfold value_le.
  destruct (Qlt_le_dec (nth j a 0%Q) (nth i a 0%Q)) as [H|H].
  - right. apply Qlt_le_weak, H.
  - left. exact H.
Qed.

Global Instance value_le_trans a : Transitive (value_le a).
Proof. intros i j k. unfold value_le. apply Qle_trans. Qed.

Definition merge_argsort (a : list Q) : list nat :=
  merge_sort (value_le a) (seq 0 (length a)).

Global Program Instance merge_ArgSort : ArgSort := {| argsort := merge_argsort |}.
Next Obligation. intros a. apply merge_sort_Permutation. Qed.
Next Obligation.
  intros a. apply (StronglySorted_merge_sort (value_le a)).
Qed.

(** ** Events of the plotting canvas *)

Inductive axes : Type := ax1 | ax2.

Global Instance axes_eq_dec : EqDecision axes.
Proof. solve_decision. Defined.

(** A mouse event: the axes under the pointer (if any), the data
    coordinates (defined inside a plot's data area) and the button number. *)
Record event : Type := {
  inaxes : option axes;
  xdata : option Q;
  ydata : option Q;
  button : nat
}.

(** ** The local variables of [load_mzml_file] *)

(** The frame of one call: the three lists under construction, the local
    [rt] ([None] while it is unbound) and the browser object [self]. *)
Record frame : Type := {
  tic_times : list Q;
  tic_intensities : list Q;
  spectrum_indices : list nat;
  rt : option Q;
  self : browser
}.

Definition new_frame (s : browser) : frame :=
  {| tic_times := []; tic_intensities := []; spectrum_indices := [];
     rt := None; self := s |}.

Definition assign_rt (t : Q) (f : frame) : frame :=
  {| tic_times := tic_times f; tic_intensities := tic_intensities f;
     spectrum_indices := spectrum_indices f; rt := Some t; self := self f |}.

Definition append_tic_times (t : Q) (f : frame) : frame :=
  {| tic_times := tic_times f ++ [t]; tic_intensities := tic_intensities f;
     spectrum_indices := spectrum_indices f; rt := rt f; self := self f |}.

Definition append_tic_intensities (c : Q) (f : frame) : frame :=
  {| tic_times := tic_times f; tic_intensities := tic_intensities f ++ [c];
     spectrum_indices := spectrum_indices f; rt := rt f; self := self f |}.

Definition append_spectrum_indices (i : nat) (f : frame) : frame :=
  {| tic_times := tic_times f; tic_intensities := tic_intensities f;
     spectrum_indices := spectrum_indices f ++ [i]; rt := rt f;
     self := self f |}.

Definition on_self (g : browser -> browser) (f : frame) : frame :=
  {| tic_times := tic_times f; tic_intensities := tic_intensities f;
     spectrum_indices := spectrum_indices f; rt := rt f; self := g (self f) |}.

(** An attribute lookup inside the [try] block. *)
Definition getattr {S A} (a : attr A) : M S A :=
  match a with
  | Raises => raise LookupRaised
  | Returns v => mret v
  end.

(** Reading the local [rt]: UnboundLocalError before its first assignment. *)
Definition read_rt : M frame Q := fun f =>
  match rt f with
  | Some t => (f, Ok t)
  | None => (f, Raise UnboundLocalError)
  end.

Definition is_not_None (v : pyval) : bool :=
  match v with PyNone => false | _ => true end.

(** [len(v)]: TypeError for a value without a length. *)
Definition len {S} (v : pyval) : M S nat :=
  match v with
  | PyArray a => mret (length a)
  | _ => raise TypeError
  end.

(** [mz_values is not None and intensities is not None and
    len(mz_values) > 0], evaluated left to right with short circuit. *)
Definition valid_data {S} (mz_values intensities : pyval) : M S bool :=
  if is_not_None mz_values && is_not_None intensities
  then n ← len mz_values; mret (0 <? n)
  else mret false.

(** The progress update, every 100 spectra while the loading label exists.
    [self.loading_window.update()] runs the event loop; the loading window
    holds the input grab, so the one command that can run there is the one
    of its Cancel button. [cancel_pressed i] tells whether the user presses
    it during the update made at spectrum [i]. *)
Definition progress_update (cancel_pressed : nat -> bool) (i : nat) : M frame unit :=
  fun f =>
    if (i mod 100 =? 0) && loading_label (self f)
    then (if cancel_pressed i then on_self cancel_loading f else f, Ok tt)
    else (f, Ok tt).

(** The body of the [try] block of the main loop, lines 241-266. *)
Definition loop_body (cancel_pressed : nat -> bool) (i : nat)
    (spectrum : spectrum) : M frame unit :=
  progress_update cancel_pressed i ;;
  lvl ← getattr (ms_level spectrum);
  (if lvl =? 1
   then t ← getattr (scan_time_in_minutes spectrum);
        modify (assign_rt t) ;;
        modify (append_tic_times t) ;;
        c ← getattr (TIC spectrum);
        modify (append_tic_intensities c) ;;
        modify (append_spectrum_indices i)
   else mret tt) ;;
  mz_values ← getattr (mz spectrum);
  intensities ← getattr (sp_i spectrum);
  valid ← valid_data mz_values intensities;
  if (valid : bool)
  then t ← read_rt;
       modify (on_self (fun s =>
         set_spectra_data
           (<[i := {| e_rt := t; e_mz := mz_values;
                      e_intensities := intensities; e_index := i |}]>
              (spectra_data s)) s))
  else mret tt.

(** [for i, spectrum in enumerate(msrun): try: ... except Exception:
    continue], started at position [i]. *)
Fixpoint for_loop (cancel_pressed : nat -> bool) (i : nat)
    (msrun : list spectrum) (f : frame) : frame :=
  match msrun with
  | [] => f
  | spectrum :: rest =>
      for_loop cancel_pressed (S i) rest
        (try_except (loop_body cancel_pressed i spectrum) f)
  end.

(** ** Python list operations that can raise *)

(** [l[k]] for a non-negative [k]. *)
Definition getitem {S A} (l : list A) (k : nat) : M S A :=
  match l !! k with
  | Some x => mret x
  | None => raise IndexError
  end.

(** The position of the first element equal to [x]. *)
Fixpoint first_index (x : nat) (l : list nat) : option nat :=
  match l with
  | [] => None
  | y :: l' => if decide (x = y) then Some 0 else S <$> first_index x l'
  end.

(** [l.index(x)]: ValueError when [x] is not in the list. *)
Definition list_index {S} (x : nat) (l : list nat) : M S nat :=
  match first_index x l with
  | Some k => mret k
  | None => raise ValueError
  end.

(** [d[k]] on the spectrum store: KeyError for a missing key. *)
Definition store_getitem (k : nat) : M browser entry := fun s =>
  match spectra_data s !! k with
  | Some e => (s, Ok e)
  | None => (s, Raise KeyError)
  end.

Definition lift {S A} (r : result A) : M S A := fun s => (s, r).

Definition inaxes_is (a : axes) (ev : event) : bool :=
  bool_decide (inaxes ev = Some a).

Section Browser.

Context `{!ArgSort}.

(** ** The spectrum arrays of [update_plots] *)

(** [np.argsort(intensities_filtered)[-10:]], computed only for a non-empty
    array (lines 330-331). *)
Definition top_peaks_idx (intensities_filtered : list Q) : list nat :=
  if 0 <? length intensities_filtered
  then let order := argsort intensities_filtered in
       drop (length order - 10) order
  else [].

(** Lines 314-338 of [update_plots]: the filtered arrays handed to the plot
    and the positions, in the filtered arrays, of the annotated peaks. *)
Definition render_spectrum_arrays (spectrum : entry)
    : result (list Q * list Q * list nat) :=
  match e_mz spectrum, e_intensities spectrum with
  | PyArray mz_values, PyArray intensities =>
      let mask := non_zero_mask intensities in
      match mask_index mz_values mask, mask_index intensities mask with
      | Ok mz_filtered, Ok intensities_filtered =>
          Ok (mz_filtered, intensities_filtered,
              top_peaks_idx intensities_filtered)
      | Raise e, _ => Raise e
      | _, Raise e => Raise e
      end
  | _, _ => Raise TypeError
  end.

(** [ax1.plot(times, intensities)] of line 300: the plotting surface
    raises ValueError when the two arrays differ in length. *)
Definition plot_tic (td : tic) : result unit :=
  if decide (length (times td) = length (intensities td)) then Ok tt
  else Raise ValueError.

(** [update_plots]: both axes are cleared, which drops the zoom of the
    spectrum plot; the TIC is plotted; then the spectrum of the current
    selection is drawn when the store has it. *)
Definition update_plots : M browser unit := fun s =>
  match tic_data s with
  | None => (s, Ok tt)
  | Some td =>
      let s' := set_ax2_lim None s in
      match plot_tic td with
      | Raise e => (s', Raise e)
      | Ok _ =>
          match spectra_data s' !! current_spectrum_index s' with
          | Some spectrum =>
              match render_spectrum_arrays spectrum with
              | Ok _ => (s', Ok tt)
              | Raise e => (s', Raise e)
              end
          | None => (s', Ok tt)
          end
      end
  end.

(** ** [load_mzml_file] *)

(** What [pymzml.run.Reader(file_path)] gives. The reader is built and
    read through once, to count the spectra, before the main loop (lines
    225-234), outside any [try] block: when it cannot open the file, or
    raises while fetching a record, the exception leaves [load_mzml_file]
    there. Otherwise [msrun] is the sequence of spectra it yields, on the
    counting pass and again on the main pass. *)
Inductive reader : Type :=
  | Unreadable
  | Yields (msrun : list spectrum).

(** The three lists and [rt] are locals of the call; the store is
    [self.spectra_data] itself, written by the loop. After the loop the
    emptiness check of line 271 raises its ValueError, or the TIC series,
    the file name and the middle selection are assigned and the plots
    redrawn. *)
Definition load_mzml_file (cancel_pressed : nat -> bool) (file_path : string)
    (file : reader) : M browser unit := fun s =>
  match file with
  | Unreadable => (set_status (Loading file_path) s, Raise ReaderError)
  | Yields msrun =>
      let f := for_loop cancel_pressed 0 msrun
                 (new_frame (set_status (Loading file_path) s)) in
      match spectrum_indices f with
      | [] => (self f, Raise NoMS1SpectraError)
      | _ :: _ =>
          (modify (set_tic_data (Some {| times := tic_times f;
                                        intensities := tic_intensities f;
                                        indices := spectrum_indices f |})) ;;
           modify (set_mzml_file (Some file_path)) ;;
           middle ← getitem (spectrum_indices f)
                      (length (spectrum_indices f) / 2);
           modify (set_current_spectrum_index middle) ;;
           update_plots ;;
           modify (set_status (Loaded file_path (length (spectrum_indices f)))) ;;
           modify hide_loading_indicator) (self f)
      end
  end.

(** [open_file], once the dialog has returned a non-empty path: the loading
    window is shown, the file is loaded, and on any exception the window is
    hidden and an error box is shown. *)
Definition open_file (cancel_pressed : nat -> bool) (file_path : string)
    (file : reader) (s : browser) : browser :=
  match load_mzml_file cancel_pressed file_path file (show_loading_indicator s) with
  | (s', Ok _) => s'
  | (s', Raise _) => hide_loading_indicator s'
  end.

(** ** Navigation *)

Definition on_click (ev : event) : M browser unit := fun s =>
  match inaxes_is ax1 ev, tic_data s with
  | true, Some td =>
      match xdata ev with
      | Some clicked_time =>
          (closest_idx ← lift (argmin (abs_diff (times td) clicked_time));
           idx ← getitem (indices td) closest_idx;
           modify (set_current_spectrum_index idx) ;;
           update_plots ;;
           t ← getitem (times td) closest_idx;
           modify (set_status (SelectedAt t))) s
      | None => (s, Ok tt)
      end
  | _, _ =>
      if inaxes_is ax2 ev && (button ev =? 1)
      then (set_status ClickAndDrag
              (set_zoom true (Some (xdata ev, ydata ev)) (zoom_end s) s), Ok tt)
      else (s, Ok tt)
  end.

Definition on_left_arrow : M browser unit := fun s =>
  match tic_data s with
  | Some td =>
      if 1 <? length (indices td)
      then (current_idx ← list_index (current_spectrum_index s) (indices td);
            if 0 <? current_idx
            then idx ← getitem (indices td) (current_idx - 1);
                 modify (set_current_spectrum_index idx) ;;
                 update_plots ;;
                 e ← store_getitem idx;
                 modify (set_status (SelectedLeft (e_rt e)))
            else mret tt) s
      else (s, Ok tt)
  | None => (s, Ok tt)
  end.

Definition on_right_arrow : M browser unit := fun s =>
  match tic_data s with
  | Some td =>
      if 1 <? length (indices td)
      then (current_idx ← list_index (current_spectrum_index s) (indices td);
            if current_idx <? length (indices td) - 1
            then idx ← getitem (indices td) (current_idx + 1);
                 modify (set_current_spectrum_index idx) ;;
                 update_plots ;;
                 e ← store_getitem idx;
                 modify (set_status (SelectedRight (e_rt e)))
            else mret tt) s
      else (s, Ok tt)
  | None => (s, Ok tt)
  end.

End Browser.

Global Arguments load_mzml_file : simpl never.

(** ** Drag zoom on the spectrum plot *)

Definition on_mouse_move (ev : event) (s : browser) : browser :=
  if zoom_active s && inaxes_is ax2 ev
  then set_zoom (zoom_active s) (zoom_start s) (Some (xdata ev, ydata ev)) s
  else s.

Definition on_mouse_release (ev : event) (s : browser) : browser :=
  if zoom_active s && inaxes_is ax2 ev && (button ev =? 1)
  then
    let s' :=
      match zoom_start s, zoom_end s with
      | Some (Some x1, Some y1), Some (Some x2, Some y2) =>
          set_status Zoomed
            (set_ax2_lim (Some ((Qmin x1 x2, Qmax x1 x2),
                                (Qmin y1 y2, Qmax y1 y2))) s)
      | _, _ => s
      end in
    set_zoom false None None s'
  else s.

(** ** Concrete spectra, streams and events used by the examples *)

(** A spectrum whose lookups all return. *)
Definition mk_spectrum (level : nat) (t c : Q) (m i : list Q) : spectrum :=
  {| ms_level := Returns level; scan_time_in_minutes := Returns t;
     TIC := Returns c; mz := Returns (PyArray m); sp_i := Returns (PyArray i) |}.

(** The Cancel button is never pressed. *)
Definition no_cancel (_ : nat) : bool := false.

(** The Cancel button is pressed during the first progress update. *)
Definition cancel_at_start (i : nat) : bool := i =? 0.

(** The drag-zoom machine in its Selecting state, anchor (100, 50). *)
Definition selecting : browser :=
  set_zoom true (Some (Some 100%Q, Some 50%Q)) None init.

Definition release_outside : event :=
  {| inaxes := None; xdata := None; ydata := None; button := 1 |}.

Definition release_inside : event :=
  {| inaxes := Some ax2; xdata := Some 400%Q; ydata := Some 10%Q; button := 1 |}.

Definition press_inside : event :=
  {| inaxes := Some ax2; xdata := Some 7%Q; ydata := Some 8%Q; button := 1 |}.

(** A stored spectrum of 15 points with distinct positive intensities. *)
Definition fifteen_mz : list Q :=
  [101; 102; 103; 104; 105; 106; 107; 108; 109; 110; 111; 112; 113; 114; 115]%Q.

Definition fifteen_intensities : list Q :=
  [7; 3; 12; 1; 15; 9; 4; 14; 2; 11; 6; 13; 5; 10; 8]%Q.

Definition fifteen_points : entry :=
  {| e_rt := 1%Q; e_mz := PyArray fifteen_mz;
     e_intensities := PyArray fifteen_intensities; e_index := 0 |}.

(** ** Reading a stream: what the loop appends and binds *)

(** The record passes the three lookups of the MS1 branch: its level is 1
    and its retention time and total ion current are returned. *)
Definition tic_ok (r : spectrum) : bool :=
  match ms_level r, scan_time_in_minutes r, TIC r with
  | Returns 1, Returns _, Returns _ => true
  | _, _, _ => false
  end.

(** The positions, counted from [i], of the records that pass [tic_ok]. *)
Fixpoint tic_positions (i : nat) (msrun : list spectrum) : list nat :=
  match msrun with
  | [] => []
  | r :: rest => (if tic_ok r then [i] else []) ++ tic_positions (S i) rest
  end.

(** The binding of the local [rt] after one record: a level-1 record whose
    retention time is returned rebinds it. *)
Definition rt_after (r : spectrum) (old : option Q) : option Q :=
  match ms_level r, scan_time_in_minutes r with
  | Returns 1, Returns t => Some t
  | _, _ => old
  end.

(** The frame after the progress update made at spectrum [i]. *)
Definition after_progress (cancel_pressed : nat -> bool) (i : nat) (f : frame) : frame :=
  fst (progress_update cancel_pressed i f).

(** The body of the loop gets as far as the insertion into the store: no
    lookup raises on the way and the validity test of line 260 passes. *)
Definition reaches_insert (r : spectrum) : bool :=
  match ms_level r with
  | Raises => false
  | Returns 1 =>
      match scan_time_in_minutes r, TIC r with
      | Returns _, Returns _ => true
      | _, _ => false
      end
  | Returns _ => true
  end &&
  match mz r, sp_i r with
  | Returns (PyArray (_ :: _)), Returns (PyArray _ | PyObject) => true
  | _, _ => false
  end.

(** The binding of [rt] after a whole stream. *)
Definition rt_of_stream (old : option Q) (msrun : list spectrum) : option Q :=
  foldl (fun acc r => rt_after r acc) old msrun.

(** The frame in which the loop of [load_mzml_file] ends. *)
Definition loop_result (cancel_pressed : nat -> bool) (file_path : string)
    (msrun : list spectrum) (s : browser) : frame :=
  for_loop cancel_pressed 0 msrun (new_frame (set_status (Loading file_path) s)).


(** [k] is the first position at which [a] takes its minimum. *)
Definition first_min (a : list Q) (k : nat) : Prop :=
  exists v, a !! k = Some v /\
    forall j x, a !! j = Some x -> (v <= x)%Q /\ (j < k -> (v < x)%Q).

(** What one record appends to [tic_times] and to [tic_intensities]. *)
Definition time_appended (r : spectrum) : list Q :=
  match ms_level r, scan_time_in_minutes r with
  | Returns 1, Returns t => [t]
  | _, _ => []
  end.

Definition intensity_appended (r : spectrum) : list Q :=
  match ms_level r, scan_time_in_minutes r, TIC r with
  | Returns 1, Returns _, Returns c => [c]
  | _, _, _ => []
  end.

(** Two frames hold the same build: the same lists, the same [rt] and the
    same store. *)
Definition same_build (f f' : frame) : Prop :=
  tic_times f = tic_times f' /\
  tic_intensities f = tic_intensities f' /\
  spectrum_indices f = spectrum_indices f' /\
  rt f = rt f' /\
  spectra_data (self f) = spectra_data (self f').


(** A level-1 record whose mz and intensity arrays are empty. *)
Definition empty_arrays_stream : list spectrum :=
  [mk_spectrum 1 0%Q 5%Q [] []].

(** A stream whose only level-1 record has zero total ion current. *)
Definition zero_tic_stream : list spectrum :=
  [mk_spectrum 1 0%Q 0%Q [100%Q] [0%Q]].

(** A level-1 record with two mz values and one intensity. *)
Definition unequal_stream : list spectrum :=
  [mk_spectrum 1 1%Q 5%Q [100%Q; 200%Q] [5%Q]].

(** Three level-1 spectra at 1, 2 and 3 minutes. *)
Definition file_a : list spectrum :=
  [mk_spectrum 1 1%Q 10%Q [100%Q] [5%Q];
   mk_spectrum 1 2%Q 20%Q [200%Q] [7%Q];
   mk_spectrum 1 3%Q 30%Q [300%Q] [9%Q]].

(** A level-1 record whose total ion current lookup raises, followed by a
    level-2 record: no record reaches the TIC series. *)
Definition file_b : list spectrum :=
  [{| ms_level := Returns 1; scan_time_in_minutes := Returns 9%Q;
      TIC := Raises; mz := Returns (PyArray [900%Q]);
      sp_i := Returns (PyArray [1%Q]) |};
   mk_spectrum 2 (19 # 2)%Q 3%Q [950%Q] [2%Q]].

(** A level-1 record whose retention time is returned and whose total ion
    current lookup raises, followed by a complete level-1 record. *)
Definition file_f : list spectrum :=
  [{| ms_level := Returns 1; scan_time_in_minutes := Returns 9%Q;
      TIC := Raises; mz := Returns (PyArray [900%Q]);
      sp_i := Returns (PyArray [1%Q]) |};
   mk_spectrum 1 10%Q 5%Q [950%Q] [2%Q]].


(** One level-1 spectrum. *)
Definition file_c : list spectrum :=
  [mk_spectrum 1 5%Q 50%Q [500%Q] [4%Q]].

(** A level-1 record with an empty mz array, then a complete one. *)
Definition file_d : list spectrum :=
  [mk_spectrum 1 1%Q 10%Q [] []; mk_spectrum 1 2%Q 20%Q [200%Q] [7%Q]].

(** A level-1 spectrum followed by a level-2 spectrum. *)
Definition file_e : list spectrum :=
  [mk_spectrum 1 1%Q 10%Q [100%Q] [5%Q];
   mk_spectrum 2 (3 # 2)%Q 4%Q [150%Q] [6%Q]].

(** The browser after [file_a] has been opened. *)
Definition loaded_a : browser := open_file no_cancel "a.mzML" (Yields file_a) init.

Definition tic_a : tic :=
  {| times := [1; 2; 3]%Q; intensities := [10; 20; 30]%Q; indices := [0; 1; 2] |}.

(** A click on the TIC plot at 1.5 minutes, halfway between two entries. *)
Definition click_between : event :=
  {| inaxes := Some ax1; xdata := Some (3 # 2)%Q; ydata := Some 0%Q; button := 1 |}.

(** ** Scroll zoom and the reset commands *)

(** [a.min()] and [a.max()]: ValueError on an empty array. *)
Definition np_min (a : list Q) : result Q :=
  match a with
  | [] => Raise ValueError
  | x :: a' => Ok (foldl (fun m y => if Qlt_bool y m then y else m) x a')
  end.

Definition np_max (a : list Q) : result Q :=
  match a with
  | [] => Raise ValueError
  | x :: a' => Ok (foldl (fun m y => if Qlt_bool m y then y else m) x a')
  end.

(** The filtering that [update_plots], [reset_mass_spectrum_zoom] and
    [reset_all_plots] each write out: [non_zero_mask = intensities > 0],
    [mz_values[non_zero_mask]], [intensities[non_zero_mask]]. *)
Definition filter_spectrum (spectrum : entry) : result (list Q * list Q) :=
  match e_mz spectrum, e_intensities spectrum with
  | PyArray mz_values, PyArray intensities =>
      let mask := non_zero_mask intensities in
      match mask_index mz_values mask, mask_index intensities mask with
      | Ok mz_filtered, Ok intensities_filtered =>
          Ok (mz_filtered, intensities_filtered)
      | Raise e, _ => Raise e
      | _, Raise e => Raise e
      end
  | _, _ => Raise TypeError
  end.

(** The limits of one plot: [(xmin, xmax)] and [(ymin, ymax)]. *)
Definition limits : Type := (Q * Q) * (Q * Q).

(** Lines 434-441 (and 473-479): the limits set for the spectrum plot, none
    when nothing is left after filtering. The padding is 5% of the mz range
    on each side and 10% above the highest intensity. *)
Definition spectrum_limits (mz_filtered intensities_filtered : list Q)
    : result (option limits) :=
  if 0 <? length mz_filtered
  then match np_max mz_filtered, np_min mz_filtered,
             np_max intensities_filtered, np_min intensities_filtered with
       | Ok mz_max, Ok mz_min, Ok i_max, Ok _ =>
           let mz_range := (mz_max - mz_min)%Q in
           Ok (Some ((mz_min - mz_range * (5 # 100), mz_max + mz_range * (5 # 100)),
                     (0, i_max * (11 # 10)))%Q)
       | Raise e, _, _, _ => Raise e
       | _, Raise e, _, _ => Raise e
       | _, _, Raise e, _ => Raise e
       | _, _, _, Raise e => Raise e
       end
  else Ok None.

(** [reset_mass_spectrum_zoom]: the limits it sets on the spectrum plot
    ([None] when it sets none). The status line it writes afterwards is not
    part of the result. *)
Definition reset_mass_spectrum_zoom (s : browser) : result (option limits) :=
  match spectra_data s !! current_spectrum_index s with
  | Some spectrum =>
      match filter_spectrum spectrum with
      | Ok (mz_filtered, intensities_filtered) =>
          spectrum_limits mz_filtered intensities_filtered
      | Raise e => Raise e
      end
  | None => Ok None
  end.

(** Lines 448-460 of [reset_all_plots]: the limits set for the TIC plot, 2%
    of the time range on each side and 5% above the highest intensity. *)
Definition tic_limits (td : tic) : result (option limits) :=
  if 0 <? length (times td)
  then match np_max (times td), np_min (times td),
             np_max (intensities td), np_min (intensities td) with
       | Ok t_max, Ok t_min, Ok i_max, Ok _ =>
           let time_range := (t_max - t_min)%Q in
           Ok (Some ((t_min - time_range * (2 # 100), t_max + time_range * (2 # 100)),
                     (0, i_max * (105 # 100)))%Q)
       | Raise e, _, _, _ => Raise e
       | _, Raise e, _, _ => Raise e
       | _, _, Raise e, _ => Raise e
       | _, _, _, Raise e => Raise e
       end
  else Ok None.

(** [reset_all_plots]: the limits set on the TIC plot, then those set on the
    spectrum plot. An exception of the first part leaves both plots as they
    were; one of the second part comes after the TIC limits were set. *)
Definition reset_all_plots (s : browser)
    : result (option limits * result (option limits)) :=
  match match tic_data s with
        | Some td => tic_limits td
        | None => Ok None
        end with
  | Ok tic_view => Ok (tic_view, reset_mass_spectrum_zoom s)
  | Raise e => Raise e
  end.

(** A scroll event: [event.button] is ['up'] or ['down']. *)
Record scroll_event : Type := {
  scroll_inaxes : option axes;
  scroll_xdata : option Q;
  scroll_ydata : option Q;
  scroll_up : bool
}.

(** The new limits of one axis after a scroll at [data] (lines 386-393):
    [new_width = (hi - lo) * scale_factor], [rel = (hi - data) / (hi - lo)],
    limits [data - new_width * (1 - rel)] and [data + new_width * rel]. *)
Definition scroll_axis (cur : Q * Q) (data scale_factor : Q) : Q * Q :=
  let new_width := ((snd cur - fst cur) * scale_factor)%Q in
  let rel := ((snd cur - data) / (snd cur - fst cur))%Q in
  ((data - new_width * (1 - rel))%Q, (data + new_width * rel)%Q).

(** [scale_factor]: [1 / 1.1] for a scroll up, [1.1] otherwise. *)
Definition scale_factor (ev : scroll_event) : Q :=
  if scroll_up ev then (1 / (11 # 10))%Q else (11 # 10)%Q.

(** [on_scroll]. [shown] stands for what [get_xlim] and [get_ylim] return
    while the spectrum plot is autoscaled; once limits have been set they
    are the ones returned. The plotting surface keeps the limits of an axis
    apart, so the divisions are by a non-zero width. *)
Definition on_scroll (shown : limits) (ev : scroll_event) (s : browser) : browser :=
  if bool_decide (scroll_inaxes ev = Some ax2)
     && bool_decide (is_Some (spectra_data s !! current_spectrum_index s))
  then match scroll_xdata ev, scroll_ydata ev with
       | Some xdata, Some ydata =>
           let cur := default shown (ax2_lim s) in
           set_status Zoomed
             (set_ax2_lim
                (Some (scroll_axis (fst cur) xdata (scale_factor ev),
                       scroll_axis (snd cur) ydata (scale_factor ev))) s)
       | _, _ => s
       end
  else s.

(** Events and limits for the zoom examples. *)
Definition move_inside : event :=
  {| inaxes := Some ax2; xdata := Some 3%Q; ydata := Some 12%Q; button := 1 |}.

Definition shown_a : limits := ((100, 300), (0, 10))%Q.

Definition scroll_in : scroll_event :=
  {| scroll_inaxes := Some ax2; scroll_xdata := Some 250%Q;
     scroll_ydata := Some 4%Q; scroll_up := true |}.

Definition scroll_out : scroll_event :=
  {| scroll_inaxes := Some ax2; scroll_xdata := Some 250%Q;
     scroll_ydata := Some 4%Q; scroll_up := false |}.

(** The store entry of the spectrum selected after [file_a] is opened. *)
Definition entry_a1 : entry :=
  {| e_rt := 2%Q; e_mz := PyArray [200%Q]; e_intensities := PyArray [7%Q];
     e_index := 1 |}.

(** * Properties *)

(** ** Drag zoom *)

Lemma inaxes_is_true a ev : inaxes_is a ev = true <-> inaxes ev = Some a.
Proof. unfold inaxes_is. apply bool_decide_eq_true. Qed.

Lemma inaxes_is_false a ev : inaxes_is a ev = false <-> inaxes ev ≠ Some a.
Proof. unfold inaxes_is. apply bool_decide_eq_false. Qed.

(** C9, as stated, fails: in the Selecting state a pointer-up outside the
    spectrum plot leaves the machine in Selecting with its anchor still
    pending, and so does a second pointer-down inside the plot. *)
Lemma drag_zoom_stuck_in_selecting :
  zoom_active selecting = true /\
  zoom_active (on_mouse_release release_outside selecting) = true /\
  zoom_start (on_mouse_release release_outside selecting)
    = Some (Some 100%Q, Some 50%Q) /\
  zoom_active (fst (on_click press_inside selecting)) = true.
Proof. repeat split; reflexivity. Qed.

(** C9, amended: from Selecting, a left-button pointer-up inside the
    spectrum plot returns the machine to Idle with no selection pending; a
    pointer-up outside the spectrum plot, or with another button, changes
    nothing; a second left-button pointer-down inside the plot keeps the
    machine in Selecting and replaces the anchor. *)
Theorem drag_zoom_transitions `{!ArgSort} (ev : event) (s : browser) :
  zoom_active s = true ->
  (inaxes ev = Some ax2 -> button ev = 1 ->
     zoom_active (on_mouse_release ev s) = false /\
     zoom_start (on_mouse_release ev s) = None /\
     zoom_end (on_mouse_release ev s) = None) /\
  (inaxes ev ≠ Some ax2 \/ button ev ≠ 1 -> on_mouse_release ev s = s) /\
  (inaxes ev = Some ax2 -> button ev = 1 ->
     zoom_active (fst (on_click ev s)) = true /\
     zoom_start (fst (on_click ev s)) = Some (xdata ev, ydata ev)).
Proof.
  intros Hact. split; [|split].
  - intros Hax Hb. unfold on_mouse_release.
    rewrite Hact, (proj2 (inaxes_is_true ax2 ev) Hax), Hb. simpl. auto.
  - intros Hne. unfold on_mouse_release. rewrite Hact. simpl.
    destruct Hne as [Hax|Hb].
    + rewrite (proj2 (inaxes_is_false ax2 ev) Hax). reflexivity.
    + apply Nat.eqb_neq in Hb. rewrite Hb, andb_false_r. reflexivity.
  - intros Hax Hb. unfold on_click.
    assert (inaxes_is ax1 ev = false) as ->.
    { apply inaxes_is_false. rewrite Hax. discriminate. }
    rewrite (proj2 (inaxes_is_true ax2 ev) Hax), Hb. simpl. auto.
Qed.

Lemma drag_zoom_transitions_witness :
  zoom_active selecting = true /\
  zoom_active (on_mouse_release release_inside selecting) = false.
Proof.
  split; [reflexivity|].
  apply (drag_zoom_transitions release_inside selecting); reflexivity.
Defined.

(** ** Filtering and peak selection *)

Lemma Qlt_bool_iff x y : Qlt_bool x y = true <-> (x < y)%Q.
Proof.
  unfold Qlt_bool. rewrite negb_true_iff, <- not_true_iff_false, Qle_bool_iff.
  split; [apply Qnot_le_lt | apply Qlt_not_le].
Qed.

Lemma Qlt_bool_false_iff x y : Qlt_bool x y = false <-> (y <= x)%Q.
Proof.
  unfold Qlt_bool. rewrite negb_false_iff. apply Qle_bool_iff.
Qed.

Lemma compress_non_zero_mask (ints : list Q) : forall mzs : list Q,
  length mzs = length ints ->
  zip (compress (non_zero_mask ints) mzs) (compress (non_zero_mask ints) ints)
  = filter (fun p : Q * Q => (0 < p.2)%Q) (zip mzs ints).
Proof.
  induction ints as [|x ints IH]; intros [|m mzs] Hlen; simpl in *; try done.
  injection Hlen as Hlen. specialize (IH mzs Hlen).
  rewrite filter_cons. simpl.
  destruct (Qlt_bool 0 x) eqn:Hx.
  - apply Qlt_bool_iff in Hx. rewrite decide_True by done. simpl. by rewrite IH.
  - apply Qlt_bool_false_iff in Hx. rewrite decide_False; [done|].
    by apply Qle_not_lt.
Qed.

Lemma compress_all_positive (ints : list Q) :
  Forall (fun x => (0 < x)%Q) ints -> compress (non_zero_mask ints) ints = ints.
Proof.
  induction 1 as [|x ints Hx _ IH]; simpl; [done|].
  apply Qlt_bool_iff in Hx. rewrite Hx. by rewrite IH.
Qed.

Lemma length_non_zero_mask a : length (non_zero_mask a) = length a.
Proof. unfold non_zero_mask. apply length_fmap. Qed.

Lemma mask_index_ok a m :
  length a = length m -> mask_index a m = Ok (compress m a).
Proof. intros H. unfold mask_index. by rewrite decide_True. Qed.

Lemma mask_index_mismatch a m :
  length a ≠ length m -> mask_index a m = Raise IndexError.
Proof. intros H. unfold mask_index. by rewrite decide_False. Qed.

Lemma length_compress m : forall a b : list Q,
  length a = length m -> length b = length m ->
  length (compress m a) = length (compress m b).
Proof.
  induction m as [|[] m IH]; intros [|x a] [|y b] Ha Hb; simpl in *; try done;
    injection Ha as Ha; injection Hb as Hb; auto.
Qed.

(** In a strongly sorted list every element of a prefix is related to
    every element of the rest. *)
Lemma StronglySorted_app_le {A} (R : A -> A -> Prop) (l1 l2 : list A) :
  StronglySorted R (l1 ++ l2) -> forall x y, x ∈ l1 -> y ∈ l2 -> R x y.
Proof.
  induction l1 as [|a l1 IH]; simpl; intros Hs x y Hx Hy.
  - by apply elem_of_nil in Hx.
  - apply StronglySorted_inv in Hs as [Hs Hall].
    apply elem_of_cons in Hx as [->|Hx].
    + rewrite Forall_forall in Hall. apply Hall. apply elem_of_app. by right.
    + by apply IH.
Qed.

Section Peaks.

Context `{!ArgSort}.

Lemma argsort_length a : length (argsort a) = length a.
Proof. rewrite (argsort_perm a). apply length_seq. Qed.

Lemma argsort_NoDup a : NoDup (argsort a).
Proof. rewrite (argsort_perm a). apply NoDup_seq. Qed.

Lemma argsort_elem_of a k : k ∈ argsort a <-> k < length a.
Proof. rewrite (argsort_perm a), elem_of_seq. lia. Qed.

(** The annotated peaks: the last ten positions of the ascending order, so
    every position left out holds a value no greater than any peak. *)
Lemma top_peaks_idx_spec (a : list Q) :
  length (top_peaks_idx a) = Nat.min 10 (length a) /\
  NoDup (top_peaks_idx a) /\
  (forall k, k ∈ top_peaks_idx a -> k < length a) /\
  (forall k j, k ∈ top_peaks_idx a -> j < length a -> j ∉ top_peaks_idx a ->
     (nth j a 0 <= nth k a 0)%Q).
Proof.
  unfold top_peaks_idx.
  destruct (0 <? length a) eqn:Hpos.
  - cbv zeta. set (n := length (argsort a) - 10).
    assert (Hn : length (argsort a) = length a) by apply argsort_length.
    split; [|split; [|split]].
    + rewrite length_drop. subst n. lia.
    + pose proof (argsort_NoDup a) as Hnd.
      rewrite <- (take_drop n (argsort a)) in Hnd.
      by apply NoDup_app in Hnd as (_ & _ & ?).
    + intros k Hk. apply argsort_elem_of.
      rewrite <- (take_drop n (argsort a)). apply elem_of_app. by right.
    + intros k j Hk Hj Hnot.
      assert (Hin : j ∈ take n (argsort a)).
      { apply argsort_elem_of in Hj.
        rewrite <- (take_drop n (argsort a)) in Hj.
        apply elem_of_app in Hj as [?|?]; done. }
      pose proof (argsort_sorted a) as Hs.
      rewrite <- (take_drop n (argsort a)) in Hs.
      exact (StronglySorted_app_le _ _ _ Hs j k Hin Hk).
  - apply Nat.ltb_ge in Hpos. assert (length a = 0) as -> by lia.
    simpl. repeat split; try constructor.
    + intros k Hk. by apply elem_of_nil in Hk.
    + intros k j Hk. by apply elem_of_nil in Hk.
Qed.

(** C7: for a stored spectrum whose mz and intensity arrays have the same
    length, the rendered arrays are the (mz, intensity) pairs with positive
    intensity, in their original order; the peaks are 10 distinct positions
    of the filtered arrays (all of them when fewer than 10 remain), and the
    intensity at every peak is at least the intensity at every position that
    is not a peak. With 15 positive intensities exactly 10 peaks result. *)
Theorem render_spectrum_arrays_spec (e : entry) (mzs ints : list Q) :
  e_mz e = PyArray mzs -> e_intensities e = PyArray ints ->
  length mzs = length ints ->
  exists mzf intf peaks,
    render_spectrum_arrays e = Ok (mzf, intf, peaks) /\
    zip mzf intf = filter (fun p : Q * Q => (0 < p.2)%Q) (zip mzs ints) /\
    length mzf = length intf /\
    length peaks = Nat.min 10 (length intf) /\
    NoDup peaks /\
    (forall k, k ∈ peaks -> k < length intf) /\
    (forall k j, k ∈ peaks -> j < length intf -> j ∉ peaks ->
       (nth j intf 0 <= nth k intf 0)%Q) /\
    (length ints = 15 -> Forall (fun x => (0 < x)%Q) ints -> length peaks = 10).
Proof.
  intros Hmz Hint Hlen.
  exists (compress (non_zero_mask ints) mzs), (compress (non_zero_mask ints) ints),
         (top_peaks_idx (compress (non_zero_mask ints) ints)).
  destruct (top_peaks_idx_spec (compress (non_zero_mask ints) ints))
    as (Hl & Hnd & Hlt & Hge).
  split; [|split; [|split; [|split; [|split; [|split; [|split]]]]]]; try done.
  - unfold render_spectrum_arrays. rewrite Hmz, Hint.
    rewrite !mask_index_ok; [done| |]; by rewrite length_non_zero_mask.
  - by apply compress_non_zero_mask.
  - apply length_compress; by rewrite length_non_zero_mask.
  - intros H15 Hall. rewrite Hl, compress_all_positive by done. rewrite H15. done.
Qed.

End Peaks.

Lemma render_spectrum_arrays_spec_witness :
  exists mzf intf peaks,
    render_spectrum_arrays fifteen_points = Ok (mzf, intf, peaks) /\
    length peaks = 10.
Proof.
  destruct (render_spectrum_arrays_spec fifteen_points fifteen_mz
              fifteen_intensities eq_refl eq_refl eq_refl)
    as (mzf & intf & peaks & Hr & _ & _ & _ & _ & _ & _ & H15).
  exists mzf, intf, peaks. split; [exact Hr|].
  apply H15; [reflexivity|].
  unfold fifteen_intensities. repeat (constructor; [reflexivity|]). constructor.
Defined.

(** ** Nearest-time selection and stepping *)

Lemma argmin_from_spec (a : list Q) : forall (pre : list Q) (best : nat) (bv : Q),
  pre !! best = Some bv ->
  (forall j x, pre !! j = Some x -> (bv <= x)%Q /\ (j < best -> (bv < x)%Q)) ->
  first_min (pre ++ a) (argmin_from best bv (length pre) a).
Proof.
  induction a as [|y a IH]; intros pre best bv Hb Hmin; simpl.
  - rewrite app_nil_r. exists bv. split; [done|]. exact Hmin.
  - replace (pre ++ y :: a) with ((pre ++ [y]) ++ a) by (by rewrite <- app_assoc).
    replace (S (length pre)) with (length (pre ++ [y]))
      by (rewrite length_app; simpl; lia).
    destruct (Qlt_bool y bv) eqn:Hy.
    + apply Qlt_bool_iff in Hy. apply IH.
      * by apply list_lookup_middle.
      * intros j x Hj. apply lookup_app_Some in Hj as [Hj|[Hge Hj]].
        -- destruct (Hmin j x Hj) as [Hle _]. split; [lra|].
           intros _. lra.
        -- apply list_lookup_singleton_Some in Hj as [Hj0 <-].
           split; [lra|]. intros ?. lia.
    + apply Qlt_bool_false_iff in Hy. 
      assert (best < length pre) by (by eapply lookup_lt_Some).
      apply IH.
      * by rewrite lookup_app_l.
      * intros j x Hj. apply lookup_app_Some in Hj as [Hj|[Hge Hj]].
        -- by apply Hmin.
        -- apply list_lookup_singleton_Some in Hj as [_ <-]. split; [done|]. lia.
Qed.

Lemma argmin_spec (a : list Q) :
  a ≠ [] -> exists k, argmin a = Ok k /\ first_min a k.
Proof.
  destruct a as [|x a]; [done|]. intros _. simpl.
  eexists. split; [done|].
  apply (argmin_from_spec a [x] 0 x); [done|].
  intros j y Hj. apply list_lookup_singleton_Some in Hj as [-> <-].
  split; [lra|lia].
Qed.


Section Nav.
Context `{!ArgSort}.

Lemma update_plots_state s :
  (update_plots s).1 = match tic_data s with None => s | Some _ => set_ax2_lim None s end.
Proof.
  unfold update_plots. destruct (tic_data s) as [td|]; [|done].
  destruct (plot_tic td); [|done].
  destruct (spectra_data _ !! _); [|done].
  by destruct (render_spectrum_arrays _).
Qed.

Lemma update_plots_current s :
  current_spectrum_index (update_plots s).1 = current_spectrum_index s.
Proof. rewrite update_plots_state. by destruct (tic_data s). Qed.

Lemma update_plots_tic_data s : tic_data (update_plots s).1 = tic_data s.
Proof. rewrite update_plots_state. by destruct (tic_data s) eqn:E. Qed.

Lemma abs_diff_lookup ts t j :
  abs_diff ts t !! j = (fun x => Qabs (x - t)) <$> ts !! j.
Proof. unfold abs_diff. apply list_lookup_fmap. Qed.

(** C5: for a TIC series that is not empty (its times and indices are
    parallel arrays), a click on the TIC plot at time [t] makes current the
    sequence index at the position [k] whose retention time minimizes
    [abs(time - t)]; every earlier position is strictly farther from [t], so
    of two equidistant entries the one at the lower position is chosen. *)
Theorem on_click_selects_nearest (s : browser) (td : tic) (ev : event) (t : Q) :
  tic_data s = Some td -> times td ≠ [] ->
  length (indices td) = length (times td) ->
  inaxes ev = Some ax1 -> xdata ev = Some t ->
  exists k tk idx,
    times td !! k = Some tk /\ indices td !! k = Some idx /\
    current_spectrum_index (on_click ev s).1 = idx /\
    forall j tj, times td !! j = Some tj ->
      (Qabs (tk - t) <= Qabs (tj - t))%Q /\
      (j < k -> (Qabs (tk - t) < Qabs (tj - t))%Q).
Proof.
  intros Htd Hne Hlen Hax Hx.
  destruct (argmin_spec (abs_diff (times td) t)) as (k & Hk & v & Hv & Hmin).
  { unfold abs_diff. destruct (times td); done. }
  rewrite abs_diff_lookup in Hv.
  destruct (times td !! k) as [tk|] eqn:Htk; [|done].
  assert (Hlt : k < length (indices td)).
  { rewrite Hlen. by eapply lookup_lt_Some. }
  destruct (lookup_lt_is_Some_2 _ _ Hlt) as [idx Hidx].
  exists k, tk, idx. split; [done|]. split; [done|]. split.
  - unfold on_click. rewrite (proj2 (inaxes_is_true ax1 ev) Hax), Htd, Hx.
    unfold mbind, M_bind, lift, getitem. rewrite Hk, Hidx. simpl.
    pose proof (update_plots_current (set_current_spectrum_index idx s)) as Hc.
    destruct (update_plots (set_current_spectrum_index idx s)) as [s' [[]|e]];
      simpl in *; [|done].
    rewrite Htk. done.
  - intros j tj Hj. injection Hv as <-.
    apply Hmin. by rewrite abs_diff_lookup, Hj.
Qed.

Lemma first_index_NoDup (l : list nat) : forall p x,
  NoDup l -> l !! p = Some x -> first_index x l = Some p.
Proof.
  induction l as [|y l IH]; intros p x Hnd Hp; [done|].
  apply NoDup_cons in Hnd as [Hy Hnd]. simpl.
  destruct p as [|p]; simpl in Hp.
  - injection Hp as ->. by rewrite decide_True.
  - rewrite decide_False.
    + by rewrite (IH p x Hnd Hp).
    + intros ->. apply Hy. by eapply list_elem_of_lookup_2.
Qed.

Lemma on_right_arrow_step s td p :
  tic_data s = Some td -> NoDup (indices td) ->
  indices td !! p = Some (current_spectrum_index s) ->
  tic_data (on_right_arrow s).1 = Some td /\
  current_spectrum_index (on_right_arrow s).1
    = default (current_spectrum_index s) (indices td !! S p).
Proof.
  intros Htd Hnd Hp. pose proof (lookup_lt_Some _ _ _ Hp) as Hlt.
  unfold on_right_arrow. rewrite Htd.
  destruct (1 <? length (indices td)) eqn:Hlen.
  - unfold mbind, M_bind, list_index.
    rewrite (first_index_NoDup _ _ _ Hnd Hp). simpl.
    destruct (p <? length (indices td) - 1) eqn:Hnext.
    + apply Nat.ltb_lt in Hnext.
      destruct (lookup_lt_is_Some_2 (indices td) (S p)) as [idx Hidx]; [lia|].
      unfold getitem. replace (p + 1) with (S p) by lia. rewrite Hidx. simpl.
      pose proof (update_plots_current (set_current_spectrum_index idx s)) as Hc.
      pose proof (update_plots_tic_data (set_current_spectrum_index idx s)) as Ht.
      destruct (update_plots (set_current_spectrum_index idx s)) as [s' [[]|e]];
        simpl in *; [|by rewrite Ht].
      unfold store_getitem. destruct (spectra_data s' !! idx); simpl;
        by rewrite Ht.
    + apply Nat.ltb_ge in Hnext. simpl.
      rewrite (lookup_ge_None_2 (indices td) (S p)) by lia. done.
  - apply Nat.ltb_ge in Hlen. simpl.
    rewrite (lookup_ge_None_2 (indices td) (S p)) by lia. done.
Qed.

Lemma on_left_arrow_step s td p :
  tic_data s = Some td -> NoDup (indices td) ->
  indices td !! p = Some (current_spectrum_index s) ->
  tic_data (on_left_arrow s).1 = Some td /\
  current_spectrum_index (on_left_arrow s).1
    = match p with
      | 0 => current_spectrum_index s
      | S q => default (current_spectrum_index s) (indices td !! q)
      end.
Proof.
  intros Htd Hnd Hp. pose proof (lookup_lt_Some _ _ _ Hp) as Hlt.
  unfold on_left_arrow. rewrite Htd.
  destruct (1 <? length (indices td)) eqn:Hlen.
  - unfold mbind, M_bind, list_index.
    rewrite (first_index_NoDup _ _ _ Hnd Hp). simpl.
    destruct p as [|q]; [done|]. simpl.
    destruct (lookup_lt_is_Some_2 (indices td) q) as [idx Hidx]; [lia|].
    unfold getitem. replace (q - 0) with q by lia. rewrite Hidx. simpl.
    pose proof (update_plots_current (set_current_spectrum_index idx s)) as Hc.
    pose proof (update_plots_tic_data (set_current_spectrum_index idx s)) as Ht.
    destruct (update_plots (set_current_spectrum_index idx s)) as [s' [[]|e]];
      simpl in *; [|by rewrite Ht].
    unfold store_getitem. destruct (spectra_data s' !! idx); simpl;
      by rewrite Ht.
  - apply Nat.ltb_ge in Hlen. simpl.
    destruct p as [|q]; [done|]. lia.
Qed.

(** C6: when the current selection is the entry at position [p] of the TIC
    series (whose sequence indices are distinct), a step to the next entry
    followed by a step to the previous one restores the selection whenever
    [p] is not the last position; at the last position the step to the next
    entry is a no-op that leaves the selection unchanged. *)
Theorem step_next_prev_round_trip (s : browser) (td : tic) (p : nat) :
  tic_data s = Some td -> NoDup (indices td) ->
  indices td !! p = Some (current_spectrum_index s) ->
  (S p < length (indices td) ->
     current_spectrum_index (on_right_arrow s).1 ≠ current_spectrum_index s /\
     current_spectrum_index (on_left_arrow (on_right_arrow s).1).1
       = current_spectrum_index s) /\
  (S p = length (indices td) ->
     current_spectrum_index (on_right_arrow s).1 = current_spectrum_index s).
Proof.
  intros Htd Hnd Hp.
  destruct (on_right_arrow_step s td p Htd Hnd Hp) as [Ht Hc].
  split.
  - intros Hlt.
    destruct (lookup_lt_is_Some_2 (indices td) (S p) Hlt) as [idx Hidx].
    rewrite Hidx in Hc. simpl in Hc. split.
    + rewrite Hc. intros ->.
      pose proof (NoDup_lookup _ _ _ _ Hnd Hidx Hp). lia.
    + rewrite <- Hc in Hidx.
      destruct (on_left_arrow_step _ td (S p) Ht Hnd Hidx) as [_ Hc'].
      rewrite Hc', Hp. done.
  - intros Hlast. rewrite Hc, (lookup_ge_None_2 (indices td) (S p)) by lia. done.
Qed.
End Nav.

(** ** The index build *)

Lemma progress_update_eq cp i f :
  progress_update cp i f = (after_progress cp i f, Ok tt).
Proof.
  unfold after_progress, progress_update.
  by destruct (_ && _).
Qed.

Lemma after_progress_cases cp i f :
  after_progress cp i f = f \/ after_progress cp i f = on_self cancel_loading f.
Proof.
  unfold after_progress, progress_update.
  destruct (_ && _); [destruct (cp i)|]; auto.
Qed.

Lemma after_progress_fields cp i f :
  tic_times (after_progress cp i f) = tic_times f /\
  tic_intensities (after_progress cp i f) = tic_intensities f /\
  spectrum_indices (after_progress cp i f) = spectrum_indices f /\
  rt (after_progress cp i f) = rt f /\
  spectra_data (self (after_progress cp i f)) = spectra_data (self f) /\
  tic_data (self (after_progress cp i f)) = tic_data (self f) /\
  current_spectrum_index (self (after_progress cp i f))
    = current_spectrum_index (self f) /\
  mzml_file (self (after_progress cp i f)) = mzml_file (self f).
Proof. destruct (after_progress_cases cp i f) as [->| ->]; done. Qed.

Global Arguments after_progress : simpl never.

Ltac run_body :=
  unfold try_except, loop_body; unfold mbind, M_bind;
  rewrite progress_update_eq;
  unfold getattr, valid_data, len, read_rt, modify, raise, mret, M_ret,
    mbind, M_bind; simpl.

Ltac split_spectrum r :=
  destruct r as [[|[|[|?]]] [|?] [|?] [|[|[|? ?]|]] [|[|?|]]].


Section Step.

Variables (cp : nat -> bool) (i : nat) (r : spectrum) (f : frame).

Let step := try_except (loop_body cp i r) f.

Lemma step_spectrum_indices :
  spectrum_indices step = spectrum_indices f ++ (if tic_ok r then [i] else []).
Proof.
  subst step.
  destruct (after_progress_fields cp i f) as (_ & _ & Hi & Hr & _).
  split_spectrum r; run_body; rewrite ?app_nil_r, ?Hi, ?Hr; try done.
  all: destruct (rt f); simpl; rewrite ?app_nil_r, ?Hi; done.
Qed.

Lemma step_rt : rt step = rt_after r (rt f).
Proof.
  subst step.
  destruct (after_progress_fields cp i f) as (_ & _ & Hi & Hr & _).
  split_spectrum r; run_body; rewrite ?Hr; try done.
  all: destruct (rt f); simpl; rewrite ?Hr; done.
Qed.

Lemma step_self_fields :
  tic_data (self step) = tic_data (self f) /\
  current_spectrum_index (self step) = current_spectrum_index (self f) /\
  mzml_file (self step) = mzml_file (self f).
Proof.
  subst step.
  destruct (after_progress_fields cp i f) as (_ & _ & _ & _ & _ & Ht & Hc & Hm).
  destruct (after_progress_fields cp i f) as (_ & _ & _ & Hr & _).
  split_spectrum r; run_body; rewrite ?Ht, ?Hc, ?Hm, ?Hr; try done.
  all: destruct (rt f); simpl; rewrite ?Ht, ?Hc, ?Hm; done.
Qed.

Lemma step_store_insert t mzv iv :
  reaches_insert r = true -> mz r = Returns mzv -> sp_i r = Returns iv ->
  rt_after r (rt f) = Some t ->
  spectra_data (self step)
  = <[i := {| e_rt := t; e_mz := mzv; e_intensities := iv; e_index := i |}]>
      (spectra_data (self f)).
Proof.
  subst step.
  destruct (after_progress_fields cp i f) as (_ & _ & _ & Hr & Hs & _).
  split_spectrum r; unfold reaches_insert, rt_after; simpl; try done;
    intros _ [= <-] [= <-] Ht; run_body; rewrite ?Hr, ?Ht; simpl;
    rewrite ?Hs; try done.
  all: by injection Ht as <-.
Qed.

Lemma step_store_skip :
  reaches_insert r = false \/ rt_after r (rt f) = None ->
  spectra_data (self step) = spectra_data (self f).
Proof.
  subst step.
  destruct (after_progress_fields cp i f) as (_ & _ & _ & Hr & Hs & _).
  split_spectrum r; unfold reaches_insert, rt_after; simpl;
    intros [Hf|Hn]; try done; run_body; rewrite ?Hr, ?Hn; simpl;
    rewrite ?Hs; try done.
Qed.

Lemma step_store_other k :
  k ≠ i -> spectra_data (self step) !! k = spectra_data (self f) !! k.
Proof.
  intros Hk.
  destruct (reaches_insert r) eqn:Hreach.
  - destruct (rt_after r (rt f)) as [t|] eqn:Hrt.
    + assert (exists mzv iv, mz r = Returns mzv /\ sp_i r = Returns iv)
        as (mzv & iv & Hm & Hiv).
      { revert Hreach. clear. unfold reaches_insert.
        split_spectrum r; simpl; intros; try done; eauto. }
      rewrite (step_store_insert t mzv iv) by done.
      by rewrite lookup_insert_ne.
    + rewrite step_store_skip; auto.
  - rewrite step_store_skip; auto.
Qed.

End Step.

Lemma for_loop_app cp l1 : forall l2 i f,
  for_loop cp i (l1 ++ l2) f = for_loop cp (i + length l1) l2 (for_loop cp i l1 f).
Proof.
  induction l1 as [|r l1 IH]; intros l2 i f; simpl.
  - by rewrite Nat.add_0_r.
  - rewrite IH. f_equal. lia.
Qed.

Lemma for_loop_spectrum_indices cp l : forall i f,
  spectrum_indices (for_loop cp i l f) = spectrum_indices f ++ tic_positions i l.
Proof.
  induction l as [|r l IH]; intros i f; simpl.
  - by rewrite app_nil_r.
  - by rewrite IH, step_spectrum_indices, <- app_assoc.
Qed.

Lemma for_loop_rt cp l : forall i f,
  rt (for_loop cp i l f) = rt_of_stream (rt f) l.
Proof.
  induction l as [|r l IH]; intros i f; simpl; [done|].
  by rewrite IH, step_rt.
Qed.

Lemma for_loop_self_fields cp l : forall i f,
  tic_data (self (for_loop cp i l f)) = tic_data (self f) /\
  current_spectrum_index (self (for_loop cp i l f))
    = current_spectrum_index (self f) /\
  mzml_file (self (for_loop cp i l f)) = mzml_file (self f).
Proof.
  induction l as [|r l IH]; intros i f; simpl; [done|].
  destruct (IH (S i) (try_except (loop_body cp i r) f)) as (-> & -> & ->).
  apply step_self_fields.
Qed.

Lemma for_loop_store_lt cp l : forall i f k,
  k < i ->
  spectra_data (self (for_loop cp i l f)) !! k = spectra_data (self f) !! k.
Proof.
  induction l as [|r l IH]; intros i f k Hk; simpl; [done|].
  rewrite IH by lia. apply step_store_other. lia.
Qed.

Lemma for_loop_split cp msrun k r f :
  msrun !! k = Some r ->
  for_loop cp 0 msrun f
  = for_loop cp (S k) (drop (S k) msrun)
      (try_except (loop_body cp k r) (for_loop cp 0 (take k msrun) f)).
Proof.
  intros Hk. rewrite <- (take_drop_middle msrun k r Hk) at 1.
  rewrite for_loop_app. simpl.
  rewrite length_take_le; [done|].
  apply lookup_lt_Some in Hk. lia.
Qed.

Lemma for_loop_store_insert cp msrun k r f t mzv iv :
  msrun !! k = Some r ->
  reaches_insert r = true -> mz r = Returns mzv -> sp_i r = Returns iv ->
  rt_after r (rt_of_stream (rt f) (take k msrun)) = Some t ->
  spectra_data (self (for_loop cp 0 msrun f)) !! k
  = Some {| e_rt := t; e_mz := mzv; e_intensities := iv; e_index := k |}.
Proof.
  intros Hk Hreach Hm Hiv Hrt.
  rewrite (for_loop_split cp msrun k r f Hk), for_loop_store_lt by lia.
  rewrite (step_store_insert cp k r _ t mzv iv); try done.
  - apply lookup_insert_eq.
  - by rewrite for_loop_rt.
Qed.

Lemma for_loop_store_ge cp l : forall i f k,
  i + length l <= k ->
  spectra_data (self (for_loop cp i l f)) !! k = spectra_data (self f) !! k.
Proof.
  induction l as [|x l IH]; intros i f k Hle; simpl in *; [done|].
  rewrite IH by lia. apply step_store_other. lia.
Qed.

Lemma for_loop_store_skip cp msrun k r f :
  msrun !! k = Some r ->
  reaches_insert r = false \/
    rt_after r (rt_of_stream (rt f) (take k msrun)) = None ->
  spectra_data (self (for_loop cp 0 msrun f)) !! k = spectra_data (self f) !! k.
Proof.
  intros Hk Hskip.
  rewrite (for_loop_split cp msrun k r f Hk), for_loop_store_lt by lia.
  rewrite step_store_skip.
  - apply for_loop_store_ge. rewrite length_take. lia.
  - by rewrite for_loop_rt.
Qed.

Lemma elem_of_tic_positions l : forall i k,
  k ∈ tic_positions i l <->
  exists r, i <= k /\ l !! (k - i) = Some r /\ tic_ok r = true.
Proof.
  induction l as [|x l IH]; intros i k; simpl.
  - split; [by intros ?%elem_of_nil | by intros (r & _ & ? & _)].
  - rewrite elem_of_app, IH. split.
    + intros [Hk|(r & Hle & Hl & Hr)].
      * destruct (tic_ok x) eqn:Hx; [|by apply elem_of_nil in Hk].
        apply list_elem_of_singleton in Hk as ->. exists x.
        by rewrite Nat.sub_diag.
      * exists r. split; [lia|]. split; [|done].
        replace (k - i) with (S (k - S i)) by lia. done.
    + intros (r & Hle & Hl & Hr).
      destruct (decide (k = i)) as [->|Hne].
      * rewrite Nat.sub_diag in Hl. injection Hl as ->. rewrite Hr.
        left. by apply list_elem_of_singleton.
      * right. exists r. split; [lia|]. split; [|done].
        replace (k - i) with (S (k - S i)) in Hl by lia. done.
Qed.

Lemma tic_positions_sorted l : forall i,
  StronglySorted lt (tic_positions i l).
Proof.
  induction l as [|x l IH]; intros i; simpl; [constructor|].
  destruct (tic_ok x); simpl; [|apply IH].
  constructor; [apply IH|].
  apply Forall_forall. intros k Hk.
  apply elem_of_tic_positions in Hk as (r & Hle & _). lia.
Qed.

Lemma tic_positions_NoDup l i : NoDup (tic_positions i l).
Proof.
  pose proof (tic_positions_sorted l i) as Hs.
  induction Hs as [|k ks Hs IH Hall]; constructor; [|done].
  intros Hin. rewrite Forall_forall in Hall. specialize (Hall k Hin). lia.
Qed.

Lemma tic_positions_nil l : forall i,
  tic_positions i l = [] <-> Forall (fun r => tic_ok r = false) l.
Proof.
  induction l as [|x l IH]; intros i; simpl.
  - split; [constructor|done].
  - rewrite Forall_cons, <- (IH (S i)).
    destruct (tic_ok x); simpl; split; try done; [by intros [? ?] | tauto].
Qed.

Lemma rt_of_stream_app old l1 l2 :
  rt_of_stream old (l1 ++ l2) = rt_of_stream (rt_of_stream old l1) l2.
Proof. apply foldl_app. Qed.

Lemma rt_after_other r old : ms_level r ≠ Returns 1 -> rt_after r old = old.
Proof.
  unfold rt_after. destruct (ms_level r) as [|[|[|?]]]; try done.
Qed.

Lemma rt_of_stream_other l : forall old,
  Forall (fun r => ms_level r ≠ Returns 1) l -> rt_of_stream old l = old.
Proof.
  induction l as [|r l IH]; intros old Hall; [done|].
  apply Forall_cons in Hall as [Hr Hall]. unfold rt_of_stream in *. simpl.
  rewrite rt_after_other by done. by apply IH.
Qed.

Section Load.
Context `{!ArgSort}.

Lemma update_plots_not_NoMS1 s : (update_plots s).2 ≠ Raise NoMS1SpectraError.
Proof.
  unfold update_plots. destruct (tic_data s) as [td|]; [|done].
  unfold plot_tic. case_decide; [|done].
  destruct (spectra_data _ !! _) as [e|]; [|done].
  unfold render_spectrum_arrays, mask_index.
  destruct (e_mz e), (e_intensities e); try done.
  repeat case_decide; done.
Qed.

Lemma load_mzml_file_empty cp path msrun s :
  spectrum_indices (loop_result cp path msrun s) = [] ->
  load_mzml_file cp path (Yields msrun) s
  = (self (loop_result cp path msrun s), Raise NoMS1SpectraError).
Proof.
  unfold load_mzml_file, loop_result. by intros ->.
Qed.

Lemma load_mzml_file_commit cp path msrun s :
  spectrum_indices (loop_result cp path msrun s) ≠ [] ->
  let f := loop_result cp path msrun s in
  let s' := (load_mzml_file cp path (Yields msrun) s).1 in
  (load_mzml_file cp path (Yields msrun) s).2 ≠ Raise NoMS1SpectraError /\
  tic_data s' = Some {| times := tic_times f;
                        intensities := tic_intensities f;
                        indices := spectrum_indices f |} /\
  spectra_data s' = spectra_data (self f) /\
  mzml_file s' = Some path /\
  spectrum_indices f !! (length (spectrum_indices f) / 2)
    = Some (current_spectrum_index s').
Proof.
  intros Hne. cbv zeta. unfold load_mzml_file.
  fold (loop_result cp path msrun s).
  set (f := loop_result cp path msrun s) in *.
  destruct (spectrum_indices f) as [|i0 rest] eqn:Hidx; [done|].
  destruct (lookup_lt_is_Some_2 (i0 :: rest) (length (i0 :: rest) / 2)) as [mid Hmid].
  { apply Nat.div_lt; simpl; lia. }
  unfold mbind, M_bind, modify, getitem. rewrite Hmid.
  unfold mret, M_ret.
  match goal with |- context [update_plots ?x] =>
    pose proof (update_plots_not_NoMS1 x) as Hv;
    pose proof (update_plots_state x) as Hs;
    destruct (update_plots x) as [s1 [[]|e]] end; simpl in *; subst s1.
  all: by repeat split.
Qed.

Lemma load_mzml_file_store cp path msrun s :
  spectra_data (load_mzml_file cp path (Yields msrun) s).1
  = spectra_data (self (loop_result cp path msrun s)).
Proof.
  destruct (spectrum_indices (loop_result cp path msrun s)) eqn:Hidx.
  - by rewrite load_mzml_file_empty.
  - apply load_mzml_file_commit. by rewrite Hidx.
Qed.

Lemma load_mzml_file_NoMS1 cp path msrun s :
  (load_mzml_file cp path (Yields msrun) s).2 = Raise NoMS1SpectraError <->
  spectrum_indices (loop_result cp path msrun s) = [].
Proof.
  split.
  - intros Hv. destruct (spectrum_indices _) eqn:Hidx; [done|].
    destruct (load_mzml_file_commit cp path msrun s) as [Hne _];
      [by rewrite Hidx|done].
  - intros Hidx. by rewrite load_mzml_file_empty.
Qed.

End Load.

Lemma loop_result_indices cp path msrun s :
  spectrum_indices (loop_result cp path msrun s) = tic_positions 0 msrun.
Proof. unfold loop_result. by rewrite for_loop_spectrum_indices. Qed.

Lemma tic_ok_inv r :
  tic_ok r = true ->
  exists t c, ms_level r = Returns 1 /\ scan_time_in_minutes r = Returns t /\
              TIC r = Returns c.
Proof.
  unfold tic_ok.
  destruct (ms_level r) as [|[|[|?]]], (scan_time_in_minutes r) as [|t],
    (TIC r) as [|c]; try done.
  intros _. by exists t, c.
Qed.

Lemma rt_after_ms1 r t old :
  ms_level r = Returns 1 -> scan_time_in_minutes r = Returns t ->
  rt_after r old = Some t.
Proof. unfold rt_after. by intros -> ->. Qed.

Lemma reaches_insert_ms1 r t c x l iv :
  ms_level r = Returns 1 -> scan_time_in_minutes r = Returns t ->
  TIC r = Returns c -> mz r = Returns (PyArray (x :: l)) ->
  sp_i r = Returns iv -> iv ≠ PyNone -> reaches_insert r = true.
Proof.
  unfold reaches_insert. intros -> -> -> -> -> Hiv. by destruct iv.
Qed.

Lemma reaches_insert_other r lvl x l iv :
  ms_level r = Returns lvl -> lvl ≠ 1 -> mz r = Returns (PyArray (x :: l)) ->
  sp_i r = Returns iv -> iv ≠ PyNone -> reaches_insert r = true.
Proof.
  unfold reaches_insert. intros -> Hl -> -> Hiv.
  destruct lvl as [|[|?]], iv; done.
Qed.

Lemma reaches_insert_inv r :
  reaches_insert r = true ->
  (exists lvl, ms_level r = Returns lvl /\
     (lvl = 1 -> exists t c, scan_time_in_minutes r = Returns t /\
                             TIC r = Returns c)) /\
  exists x l iv, mz r = Returns (PyArray (x :: l)) /\ sp_i r = Returns iv /\
                 iv ≠ PyNone.
Proof.
  unfold reaches_insert. intros [Hl Hm]%andb_true_iff. split.
  - destruct (ms_level r) as [|lvl]; [done|]. exists lvl. split; [done|].
    intros ->.
    destruct (scan_time_in_minutes r) as [|t], (TIC r) as [|c]; try done.
    by exists t, c.
  - destruct (mz r) as [|[| [|x l] |]]; try done.
    destruct (sp_i r) as [|iv]; [done|]. exists x, l, iv.
    by destruct iv.
Qed.


Section Build.
Context `{!ArgSort}.

(** C1, amended: after a load that does not fail on an empty TIC series,
    every sequence index of the TIC series is the position of a level-1
    record of the stream whose retention time and total ion current were
    returned; when that record has a non-empty mz array and an intensity
    value that is not None, the store holds its entry under that index, with
    the record's own retention time; when its mz array is empty the index is
    in the TIC series and the load inserts nothing under it. *)
Theorem tic_entries_in_store cp path msrun s (td : tic) (k : nat) :
  (load_mzml_file cp path (Yields msrun) s).2 ≠ Raise NoMS1SpectraError ->
  tic_data (load_mzml_file cp path (Yields msrun) s).1 = Some td ->
  k ∈ indices td ->
  exists r t c,
    msrun !! k = Some r /\ ms_level r = Returns 1 /\
    scan_time_in_minutes r = Returns t /\ TIC r = Returns c /\
    (forall x l iv,
       mz r = Returns (PyArray (x :: l)) -> sp_i r = Returns iv -> iv ≠ PyNone ->
       spectra_data (load_mzml_file cp path (Yields msrun) s).1 !! k
       = Some {| e_rt := t; e_mz := PyArray (x :: l); e_intensities := iv;
                 e_index := k |}) /\
    (mz r = Returns (PyArray []) ->
       spectra_data (load_mzml_file cp path (Yields msrun) s).1 !! k
       = spectra_data s !! k).
Proof.
  intros Hres Htd Hk.
  assert (Hne : spectrum_indices (loop_result cp path msrun s) ≠ []).
  { intros He. by apply load_mzml_file_NoMS1 in He. }
  destruct (load_mzml_file_commit cp path msrun s Hne) as (_ & Ht & _).
  rewrite Ht in Htd. injection Htd as <-. simpl in Hk.
  rewrite loop_result_indices in Hk.
  apply elem_of_tic_positions in Hk as (r & _ & Hr & Hok).
  rewrite Nat.sub_0_r in Hr.
  destruct (tic_ok_inv r Hok) as (t & c & Hl & Hst & Hc).
  exists r, t, c. repeat (split; [done|]).
  rewrite load_mzml_file_store. unfold loop_result. split.
  - intros x l iv Hm Hiv Hnn.
    apply (for_loop_store_insert cp msrun k r); try done.
    + by eapply reaches_insert_ms1.
    + by apply rt_after_ms1.
  - intros Hm. rewrite (for_loop_store_skip cp msrun k r); [done|done|].
    left. unfold reaches_insert. rewrite Hm. apply andb_false_r.
Qed.

(** C4, amended: the load of a file that the reader read through fails
    with the ValueError of line 272 ([NoMS1SpectraError]) exactly when the
    stream has no level-1 record whose retention time and total ion current
    are returned; the value of the ion current plays no part. *)
Theorem load_fails_iff_no_ms1 cp path msrun s :
  (load_mzml_file cp path (Yields msrun) s).2 = Raise NoMS1SpectraError <->
  Forall (fun r => tic_ok r = false) msrun.
Proof.
  rewrite load_mzml_file_NoMS1, loop_result_indices.
  apply tic_positions_nil.
Qed.


Lemma loop_body_unbound cp i r f lvl x l iv :
  ms_level r = Returns lvl -> lvl ≠ 1 -> mz r = Returns (PyArray (x :: l)) ->
  sp_i r = Returns iv -> iv ≠ PyNone -> rt f = None ->
  (loop_body cp i r f).2 = Raise UnboundLocalError.
Proof.
  intros Hl Hne Hm Hiv Hnn Hrt.
  destruct (after_progress_fields cp i f) as (_ & _ & _ & Hr & _).
  destruct r as [lv st tc m iv']; simpl in *; subst.
  unfold loop_body; unfold mbind, M_bind; rewrite progress_update_eq.
  destruct lvl as [|[|?]], iv; try done;
    unfold getattr, valid_data, len, read_rt, modify, raise, mret, M_ret,
      mbind, M_bind; simpl; by rewrite Hr, Hrt.
Qed.

(** C10: a record whose level is not 1, with a non-empty mz array and an
    intensity value that is not None, is stored with the retention time of
    the most recent preceding level-1 record (one whose retention time was
    returned); when no level-1 record precedes it, its insertion raises
    UnboundLocalError inside the [try] block and the store is left as it was
    under its index. *)
Theorem non_ms1_retention_time cp path msrun s (i : nat) (r : spectrum)
    (lvl : nat) (x : Q) (l : list Q) (iv : pyval) :
  msrun !! i = Some r -> ms_level r = Returns lvl -> lvl ≠ 1 ->
  mz r = Returns (PyArray (x :: l)) -> sp_i r = Returns iv -> iv ≠ PyNone ->
  (forall j rj t,
     j < i -> msrun !! j = Some rj -> ms_level rj = Returns 1 ->
     scan_time_in_minutes rj = Returns t ->
     (forall k rk, j < k < i -> msrun !! k = Some rk -> ms_level rk ≠ Returns 1) ->
     spectra_data (load_mzml_file cp path (Yields msrun) s).1 !! i
     = Some {| e_rt := t; e_mz := PyArray (x :: l); e_intensities := iv;
               e_index := i |}) /\
  ((forall k rk, k < i -> msrun !! k = Some rk -> ms_level rk ≠ Returns 1) ->
     spectra_data (load_mzml_file cp path (Yields msrun) s).1 !! i = spectra_data s !! i /\
     (loop_body cp i r
        (for_loop cp 0 (take i msrun)
           (new_frame (set_status (Loading path) s)))).2
     = Raise UnboundLocalError).
Proof.
  intros Hi Hl Hne Hm Hiv Hnn.
  assert (Hreach : reaches_insert r = true) by by eapply reaches_insert_other.
  assert (Hown : forall old, rt_after r old = old).
  { intros old. apply rt_after_other. rewrite Hl. by intros [= ->]. }
  rewrite load_mzml_file_store. unfold loop_result. split.
  - intros j rj t Hji Hj Hlj Hst Hbetween.
    apply (for_loop_store_insert cp msrun i r); try done.
    rewrite Hown. simpl.
    assert (Hj' : take i msrun !! j = Some rj) by by rewrite lookup_take_lt.
    rewrite <- (take_drop_middle _ _ _ Hj').
    rewrite rt_of_stream_app. unfold rt_of_stream at 1. simpl.
    fold (rt_of_stream (rt_after rj (rt_of_stream None (take j (take i msrun))))
            (drop (S j) (take i msrun))).
    rewrite (rt_after_ms1 rj t) by done.
    apply rt_of_stream_other. apply Forall_forall. intros rk Hrk.
    apply list_elem_of_lookup in Hrk as [n Hn].
    rewrite lookup_drop in Hn.
    pose proof (lookup_lt_Some _ _ _ Hn) as Hlt. rewrite length_take in Hlt.
    rewrite lookup_take_lt in Hn by lia.
    apply (Hbetween (S j + n) rk); [lia|done].
  - intros Hbefore.
    assert (Hnone : rt_of_stream None (take i msrun) = None).
    { apply rt_of_stream_other. apply Forall_forall. intros rk Hrk.
      apply list_elem_of_lookup in Hrk as [n Hn].
      pose proof (lookup_lt_Some _ _ _ Hn) as Hlt. rewrite length_take in Hlt.
      rewrite lookup_take_lt in Hn by lia.
      apply (Hbefore n rk); [lia|done]. }
    split.
    + rewrite (for_loop_store_skip cp msrun i r); [done|done|].
      right. by rewrite Hown.
    + eapply loop_body_unbound; try done. by rewrite for_loop_rt.
Qed.

End Build.

(** ** What a load builds does not depend on the Cancel button *)

Lemma step_tic_times cp i r f :
  tic_times (try_except (loop_body cp i r) f) = tic_times f ++ time_appended r.
Proof.
  destruct (after_progress_fields cp i f) as (Ht & _ & _ & Hr & _).
  split_spectrum r; unfold time_appended; run_body;
    rewrite ?app_nil_r, ?Ht, ?Hr; try done.
  all: destruct (rt f); simpl; rewrite ?app_nil_r, ?Ht; done.
Qed.

Lemma step_tic_intensities cp i r f :
  tic_intensities (try_except (loop_body cp i r) f)
  = tic_intensities f ++ intensity_appended r.
Proof.
  destruct (after_progress_fields cp i f) as (_ & Ht & _ & Hr & _).
  split_spectrum r; unfold intensity_appended; run_body;
    rewrite ?app_nil_r, ?Ht, ?Hr; try done.
  all: destruct (rt f); simpl; rewrite ?app_nil_r, ?Ht; done.
Qed.

Lemma step_same_build cp cp' i r f f' :
  same_build f f' ->
  same_build (try_except (loop_body cp i r) f)
             (try_except (loop_body cp' i r) f').
Proof.
  intros (Ht & Hi & Hx & Hr & Hs). unfold same_build.
  rewrite !step_tic_times, !step_tic_intensities, !step_spectrum_indices,
    !step_rt, Ht, Hi, Hx, Hr.
  repeat (split; [done|]).
  destruct (reaches_insert r) eqn:Hreach.
  - destruct (rt_after r (rt f')) as [t|] eqn:Hrt.
    + destruct (reaches_insert_inv r Hreach)
        as [_ (x & l & iv & Hm & Hiv & _)].
      rewrite (step_store_insert cp i r f t _ _ Hreach Hm Hiv) by by rewrite Hr.
      rewrite (step_store_insert cp' i r f' t _ _ Hreach Hm Hiv) by done.
      by rewrite Hs.
    + rewrite !step_store_skip; [done| |]; right; by rewrite ?Hr.
  - rewrite !step_store_skip; auto.
Qed.

Lemma for_loop_same_build cp cp' l : forall i f f',
  same_build f f' ->
  same_build (for_loop cp i l f) (for_loop cp' i l f').
Proof.
  induction l as [|r l IH]; intros i f f' Hsame; simpl; [done|].
  apply IH. by apply step_same_build.
Qed.

Lemma for_loop_tic_intensities_length cp l : forall i f,
  length (tic_intensities f) = length (spectrum_indices f) ->
  length (tic_intensities (for_loop cp i l f))
  = length (spectrum_indices (for_loop cp i l f)).
Proof.
  induction l as [|r l IH]; intros i f Hlen; simpl; [done|].
  apply IH. rewrite step_tic_intensities, step_spectrum_indices, !length_app, Hlen.
  f_equal. unfold intensity_appended, tic_ok.
  by destruct (ms_level r) as [|[|[|?]]], (scan_time_in_minutes r), (TIC r).
Qed.

Lemma for_loop_tic_times_length cp l : forall i f,
  Forall (fun r => tic_ok r = false -> time_appended r = []) l ->
  length (tic_times f) = length (spectrum_indices f) ->
  length (tic_times (for_loop cp i l f))
  = length (spectrum_indices (for_loop cp i l f)).
Proof.
  induction l as [|r l IH]; intros i f Hall Hlen; simpl; [done|].
  apply Forall_cons in Hall as [Hr Hall].
  apply IH; [done|]. rewrite step_tic_times, step_spectrum_indices, !length_app, Hlen.
  f_equal. destruct (tic_ok r) eqn:Hok.
  - destruct (tic_ok_inv r Hok) as (t & c & Hl & Hst & _).
    unfold time_appended. by rewrite Hl, Hst.
  - by rewrite Hr.
Qed.

Section CancelAndFailure.
Context `{!ArgSort}.

(** The Cancel button has no effect on what a load builds and commits. *)
Lemma cancel_pressed_irrelevant cp path msrun s :
  let s1 := (load_mzml_file cp path (Yields msrun) s).1 in
  let s2 := (load_mzml_file no_cancel path (Yields msrun) s).1 in
  tic_data s1 = tic_data s2 /\
  spectra_data s1 = spectra_data s2 /\
  current_spectrum_index s1 = current_spectrum_index s2 /\
  ((load_mzml_file cp path (Yields msrun) s).2 = Raise NoMS1SpectraError <->
   (load_mzml_file no_cancel path (Yields msrun) s).2 = Raise NoMS1SpectraError).
Proof.
  cbv zeta.
  assert (Hsame : same_build (loop_result cp path msrun s)
                             (loop_result no_cancel path msrun s)).
  { apply for_loop_same_build. by repeat split. }
  destruct Hsame as (Ht & Hi & Hx & _ & Hs).
  rewrite !load_mzml_file_store, !load_mzml_file_NoMS1, Hx, Hs.
  split; [|split; [done|split; [|done]]];
    destruct (spectrum_indices (loop_result no_cancel path msrun s)) eqn:Hidx.
  - rewrite !load_mzml_file_empty by by rewrite ?Hx.
    simpl. unfold loop_result.
    destruct (for_loop_self_fields cp msrun 0
                (new_frame (set_status (Loading path) s))) as (-> & _).
    destruct (for_loop_self_fields no_cancel msrun 0
                (new_frame (set_status (Loading path) s))) as (-> & _).
    done.
  - destruct (load_mzml_file_commit cp path msrun s)
      as (_ & -> & _); [by rewrite Hx|].
    destruct (load_mzml_file_commit no_cancel path msrun s)
      as (_ & -> & _); [by rewrite Hidx|].
    by rewrite Ht, Hi, Hx, Hidx.
  - rewrite !load_mzml_file_empty by by rewrite ?Hx.
    simpl. unfold loop_result.
    destruct (for_loop_self_fields cp msrun 0
                (new_frame (set_status (Loading path) s))) as (_ & -> & _).
    destruct (for_loop_self_fields no_cancel msrun 0
                (new_frame (set_status (Loading path) s))) as (_ & -> & _).
    done.
  - destruct (load_mzml_file_commit cp path msrun s)
      as (_ & _ & _ & _ & Hc); [by rewrite Hx|].
    destruct (load_mzml_file_commit no_cancel path msrun s)
      as (_ & _ & _ & _ & Hc'); [by rewrite Hidx|].
    rewrite Hx, <- Hidx, Hc' in Hc. by injection Hc.
Qed.

(** A load that fails before its commit, because the reader could not
    read the file or on the emptiness check of line 271, leaves the TIC
    series, the selection and the file name as they were. *)
Lemma failed_load_keeps_tic_and_selection cp path (file : reader) s :
  file = Unreadable \/
    (load_mzml_file cp path file s).2 = Raise NoMS1SpectraError ->
  tic_data (load_mzml_file cp path file s).1 = tic_data s /\
  current_spectrum_index (load_mzml_file cp path file s).1
    = current_spectrum_index s /\
  mzml_file (load_mzml_file cp path file s).1 = mzml_file s.
Proof.
  destruct file as [|msrun]; [done|].
  intros [?|Hv%load_mzml_file_NoMS1]; [done|].
  rewrite load_mzml_file_empty by done. simpl. unfold loop_result.
  destruct (for_loop_self_fields cp msrun 0
              (new_frame (set_status (Loading path) s))) as (-> & -> & ->).
  done.
Qed.

(** The sequence indices committed by a load are distinct. *)
Lemma load_indices_NoDup cp path msrun s td :
  (load_mzml_file cp path (Yields msrun) s).2 ≠ Raise NoMS1SpectraError ->
  tic_data (load_mzml_file cp path (Yields msrun) s).1 = Some td ->
  NoDup (indices td) /\ length (intensities td) = length (indices td).
Proof.
  intros Hres Htd.
  assert (Hne : spectrum_indices (loop_result cp path msrun s) ≠ []).
  { intros He. by apply load_mzml_file_NoMS1 in He. }
  destruct (load_mzml_file_commit cp path msrun s Hne) as (_ & Ht & _).
  rewrite Ht in Htd. injection Htd as <-. simpl. split.
  - rewrite loop_result_indices. apply tic_positions_NoDup.
  - unfold loop_result. by apply for_loop_tic_intensities_length.
Qed.

End CancelAndFailure.

(** ** The claims on concrete streams *)

(** C1, as stated, fails: a level-1 record with empty arrays is appended to
    the TIC series and nothing is inserted into the store for it. *)
Lemma tic_index_missing_from_store :
  (load_mzml_file no_cancel "e.mzML" (Yields empty_arrays_stream) init).2 = Ok tt /\
  tic_data (load_mzml_file no_cancel "e.mzML" (Yields empty_arrays_stream) init).1
    = Some {| times := [0%Q]; intensities := [5%Q]; indices := [0] |} /\
  spectra_data (load_mzml_file no_cancel "e.mzML" (Yields empty_arrays_stream) init).1 !! 0
    = None.
Proof. repeat split; reflexivity. Qed.

Lemma tic_entries_in_store_witness :
  exists r t c,
    file_d !! 1 = Some r /\ ms_level r = Returns 1 /\
    scan_time_in_minutes r = Returns t /\ TIC r = Returns c /\
    (forall x l iv,
       mz r = Returns (PyArray (x :: l)) -> sp_i r = Returns iv -> iv ≠ PyNone ->
       spectra_data (load_mzml_file no_cancel "d.mzML" (Yields file_d) init).1 !! 1
       = Some {| e_rt := t; e_mz := PyArray (x :: l); e_intensities := iv;
                 e_index := 1 |}) /\
    (mz r = Returns (PyArray []) ->
       spectra_data (load_mzml_file no_cancel "d.mzML" (Yields file_d) init).1 !! 1
       = spectra_data init !! 1).
Proof.
  apply (tic_entries_in_store no_cancel "d.mzML" file_d init
           {| times := [1; 2]%Q; intensities := [10; 20]%Q; indices := [0; 1] |} 1).
  - vm_compute. discriminate.
  - reflexivity.
  - simpl. apply list_elem_of_further, list_elem_of_here.
Defined.

(** C4, as stated, fails: a stream whose only level-1 record has zero total
    ion current loads without error. *)
Lemma zero_tic_stream_loads :
  Forall (fun r => ms_level r = Returns 1 -> TIC r = Returns 0%Q) zero_tic_stream /\
  (load_mzml_file no_cancel "z.mzML" (Yields zero_tic_stream) init).2 = Ok tt /\
  tic_data (load_mzml_file no_cancel "z.mzML" (Yields zero_tic_stream) init).1
    = Some {| times := [0%Q]; intensities := [0%Q]; indices := [0] |}.
Proof.
  split; [|split; reflexivity].
  repeat constructor.
Qed.



Lemma on_click_selects_nearest_witness :
  exists k tk idx,
    times tic_a !! k = Some tk /\ indices tic_a !! k = Some idx /\
    current_spectrum_index (on_click click_between loaded_a).1 = idx /\
    forall j tj, times tic_a !! j = Some tj ->
      (Qabs (tk - (3 # 2)) <= Qabs (tj - (3 # 2)))%Q /\
      (j < k -> (Qabs (tk - (3 # 2)) < Qabs (tj - (3 # 2)))%Q).
Proof.
  apply (on_click_selects_nearest loaded_a tic_a click_between (3 # 2)%Q).
  - reflexivity.
  - discriminate.
  - reflexivity.
  - reflexivity.
  - reflexivity.
Defined.

(** Halfway between the entries at 1 and 2 minutes the click selects the
    earlier one. *)
Example click_between_selects_lower :
  current_spectrum_index (on_click click_between loaded_a).1 = 0.
Proof. reflexivity. Qed.

Lemma step_next_prev_round_trip_witness :
  (2 < length (indices tic_a) ->
     current_spectrum_index (on_right_arrow loaded_a).1
       ≠ current_spectrum_index loaded_a /\
     current_spectrum_index (on_left_arrow (on_right_arrow loaded_a).1).1
       = current_spectrum_index loaded_a) /\
  (2 = length (indices tic_a) ->
     current_spectrum_index (on_right_arrow loaded_a).1
       = current_spectrum_index loaded_a).
Proof.
  apply (step_next_prev_round_trip loaded_a tic_a 1).
  - reflexivity.
  - unfold tic_a. simpl. apply NoDup_ListNoDup.
    repeat constructor; simpl; intuition lia.
  - reflexivity.
Defined.

Lemma non_ms1_retention_time_witness :
  spectra_data (load_mzml_file no_cancel "e.mzML" (Yields file_e) init).1 !! 1
    = Some {| e_rt := 1%Q; e_mz := PyArray [150%Q];
              e_intensities := PyArray [6%Q]; e_index := 1 |}.
Proof.
  assert (Hrt := proj1 (non_ms1_retention_time no_cancel "e.mzML" file_e init 1
                         (mk_spectrum 2 (3 # 2)%Q 4%Q [150%Q] [6%Q]) 2 150%Q []
                         (PyArray [6%Q]) eq_refl eq_refl ltac:(lia) eq_refl
                         eq_refl ltac:(discriminate))).
  apply (Hrt 0 (mk_spectrum 1 1%Q 10%Q [100%Q] [5%Q]) 1%Q).
  - lia.
  - reflexivity.
  - reflexivity.
  - reflexivity.
  - intros k rk Hk. lia.
Defined.

(** C2: the code at a failing input. With [file_a] loaded, the load of
    [file_b] fails with the ValueError of line 272; the TIC series and the selection are
    those of [file_a], but the store entry of the selected index 1 is now a
    record of [file_b]. And a load that succeeds ([file_c], one spectrum)
    keeps the entries of [file_a] under the indices it does not overwrite:
    the store is never rebuilt. *)
Theorem failed_load_changes_store :
  (load_mzml_file no_cancel "b.mzML" (Yields file_b) (show_loading_indicator loaded_a)).2
    = Raise NoMS1SpectraError /\
  tic_data (open_file no_cancel "b.mzML" (Yields file_b) loaded_a) = Some tic_a /\
  current_spectrum_index (open_file no_cancel "b.mzML" (Yields file_b) loaded_a) = 1 /\
  spectra_data loaded_a !! 1
    = Some {| e_rt := 2%Q; e_mz := PyArray [200%Q];
              e_intensities := PyArray [7%Q]; e_index := 1 |} /\
  spectra_data (open_file no_cancel "b.mzML" (Yields file_b) loaded_a) !! 1
    = Some {| e_rt := 9%Q; e_mz := PyArray [950%Q];
              e_intensities := PyArray [2%Q]; e_index := 1 |} /\
  tic_data (open_file no_cancel "c.mzML" (Yields file_c) loaded_a)
    = Some {| times := [5%Q]; intensities := [50%Q]; indices := [0] |} /\
  spectra_data (open_file no_cancel "c.mzML" (Yields file_c) loaded_a) !! 2
    = Some {| e_rt := 3%Q; e_mz := PyArray [300%Q];
              e_intensities := PyArray [9%Q]; e_index := 2 |}.
Proof. repeat split; reflexivity. Qed.

(** C3: the code at a failing input. With [file_a] loaded, [file_c] is
    opened and Cancel is pressed during the first progress update: the
    status reads "Loading cancelled" at that point, yet the loop goes on and
    the TIC series, the store entry and the selection of [file_c] are
    committed. *)
Theorem cancelled_load_still_commits :
  status (self (after_progress cancel_at_start 0
                  (new_frame (show_loading_indicator loaded_a))))
    = LoadingCancelled /\
  tic_data loaded_a = Some tic_a /\
  tic_data (open_file cancel_at_start "c.mzML" (Yields file_c) loaded_a)
    = Some {| times := [5%Q]; intensities := [50%Q]; indices := [0] |} /\
  current_spectrum_index loaded_a = 1 /\
  current_spectrum_index (open_file cancel_at_start "c.mzML" (Yields file_c) loaded_a) = 0 /\
  spectra_data (open_file cancel_at_start "c.mzML" (Yields file_c) loaded_a) !! 0
    = Some {| e_rt := 5%Q; e_mz := PyArray [500%Q];
              e_intensities := PyArray [4%Q]; e_index := 0 |} /\
  status (open_file cancel_at_start "c.mzML" (Yields file_c) loaded_a) = Loaded "c.mzML" 1.
Proof. repeat split; reflexivity. Qed.

(** ** numpy minimum and maximum *)

Lemma foldl_min_spec (a : list Q) : forall x,
  let m := foldl (fun m y => if Qlt_bool y m then y else m) x a in
  m ∈ x :: a /\ forall y, y ∈ x :: a -> (m <= y)%Q.
Proof.
  induction a as [|z a IH]; intros x; simpl.
  - split; [apply list_elem_of_here|].
    intros y ->%list_elem_of_singleton. apply Qle_refl.
  - destruct (IH (if Qlt_bool z x then z else x)) as [Hin Hle]. split.
    + apply elem_of_cons in Hin as [->|Hin].
      * destruct (Qlt_bool z x); [right; left|left].
      * by do 2 right.
    + intros y Hy.
      assert (Hhead : (foldl (fun m y => if Qlt_bool y m then y else m)
                         (if Qlt_bool z x then z else x) a
                       <= (if Qlt_bool z x then z else x))%Q)
        by (apply Hle; left).
      apply elem_of_cons in Hy as [->|[->|Hy]%elem_of_cons].
      * destruct (Qlt_bool z x) eqn:Hz; [|done].
        apply Qlt_bool_iff in Hz. lra.
      * destruct (Qlt_bool z x) eqn:Hz; [done|].
        apply Qlt_bool_false_iff in Hz. lra.
      * apply Hle. by right.
Qed.

Lemma foldl_max_spec (a : list Q) : forall x,
  let m := foldl (fun m y => if Qlt_bool m y then y else m) x a in
  m ∈ x :: a /\ forall y, y ∈ x :: a -> (y <= m)%Q.
Proof.
  induction a as [|z a IH]; intros x; simpl.
  - split; [apply list_elem_of_here|].
    intros y ->%list_elem_of_singleton. apply Qle_refl.
  - destruct (IH (if Qlt_bool x z then z else x)) as [Hin Hle]. split.
    + apply elem_of_cons in Hin as [->|Hin].
      * destruct (Qlt_bool x z); [right; left|left].
      * by do 2 right.
    + intros y Hy.
      assert (Hhead : ((if Qlt_bool x z then z else x)
                       <= foldl (fun m y => if Qlt_bool m y then y else m)
                            (if Qlt_bool x z then z else x) a)%Q)
        by (apply Hle; left).
      apply elem_of_cons in Hy as [->|[->|Hy]%elem_of_cons].
      * destruct (Qlt_bool x z) eqn:Hz; [|done].
        apply Qlt_bool_iff in Hz. lra.
      * destruct (Qlt_bool x z) eqn:Hz; [done|].
        apply Qlt_bool_false_iff in Hz. lra.
      * apply Hle. by right.
Qed.

Lemma np_min_spec (a : list Q) :
  a ≠ [] ->
  exists m, np_min a = Ok m /\ m ∈ a /\ forall y, y ∈ a -> (m <= y)%Q.
Proof.
  destruct a as [|x a]; [done|]. intros _. eexists. split; [done|].
  apply foldl_min_spec.
Qed.

Lemma np_max_spec (a : list Q) :
  a ≠ [] ->
  exists m, np_max a = Ok m /\ m ∈ a /\ forall y, y ∈ a -> (y <= m)%Q.
Proof.
  destruct a as [|x a]; [done|]. intros _. eexists. split; [done|].
  apply foldl_max_spec.
Qed.

Lemma filter_spectrum_ok (e : entry) (mzs ints : list Q) :
  e_mz e = PyArray mzs -> e_intensities e = PyArray ints ->
  length mzs = length ints ->
  filter_spectrum e
  = Ok (compress (non_zero_mask ints) mzs, compress (non_zero_mask ints) ints).
Proof.
  intros Hm Hi Hlen. unfold filter_spectrum. rewrite Hm, Hi.
  rewrite !mask_index_ok; [done| |]; by rewrite length_non_zero_mask.
Qed.

Lemma elem_of_zip_compress (ints : list Q) : forall (mzs : list Q) m i,
  length mzs = length ints ->
  (m, i) ∈ zip mzs ints -> (0 < i)%Q ->
  m ∈ compress (non_zero_mask ints) mzs /\
  i ∈ compress (non_zero_mask ints) ints.
Proof.
  intros mzs m i Hlen Hin Hpos.
  assert (Hf : (m, i) ∈ zip (compress (non_zero_mask ints) mzs)
                           (compress (non_zero_mask ints) ints)).
  { rewrite compress_non_zero_mask by done. apply list_elem_of_filter. done. }
  split; [by eapply elem_of_zip_l | by eapply elem_of_zip_r].
Qed.

(** ** The reset commands *)

Lemma Exists_positive_zip (ints : list Q) : forall mzs : list Q,
  length mzs = length ints -> Exists (fun i => (0 < i)%Q) ints ->
  exists m i, (m, i) ∈ zip mzs ints /\ (0 < i)%Q.
Proof.
  induction ints as [|i ints IH]; intros [|m mzs] Hlen Hex; simpl in *;
    try done; [by apply Exists_nil in Hex|].
  apply Exists_cons in Hex as [Hi|Hex].
  - exists m, i. split; [left|done].
  - destruct (IH mzs) as (m' & i' & Hin & Hpos); [lia|done|].
    exists m', i'. split; [by right|done].
Qed.

Lemma elem_of_compress (bs : list bool) : forall (a : list Q) x,
  x ∈ compress bs a -> x ∈ a.
Proof.
  induction bs as [|[] bs IH]; intros [|y a] x Hin; simpl in *;
    try (by apply elem_of_nil in Hin).
  - apply elem_of_cons in Hin as [->|Hin]; [left|right; by apply IH].
  - right. by apply IH.
Qed.

(** [reset_mass_spectrum_zoom] on a stored spectrum with at least one
    positive intensity sets limits that contain every plotted point: each
    plotted mz lies between the x limits and each plotted intensity between
    0 and the upper y limit. When all mz values are the same the two x
    limits coincide: no minimum width is imposed. *)
Theorem reset_mass_spectrum_zoom_contains_data (s : browser) (e : entry)
    (mzs ints : list Q) :
  spectra_data s !! current_spectrum_index s = Some e ->
  e_mz e = PyArray mzs -> e_intensities e = PyArray ints ->
  length mzs = length ints -> Exists (fun i => (0 < i)%Q) ints ->
  exists lo hi top,
    reset_mass_spectrum_zoom s = Ok (Some ((lo, hi), (0%Q, top))) /\
    (forall m i, (m, i) ∈ zip mzs ints -> (0 < i)%Q ->
       (lo <= m)%Q /\ (m <= hi)%Q /\ (i <= top)%Q) /\
    (forall m0, Forall (fun m => (m == m0)%Q) mzs -> (lo == m0)%Q /\ (hi == m0)%Q).
Proof.
  intros He Hm Hi Hlen Hex.
  destruct (Exists_positive_zip ints mzs Hlen Hex) as (m1 & i1 & Hin1 & Hpos1).
  destruct (elem_of_zip_compress ints mzs m1 i1 Hlen Hin1 Hpos1) as [Hmf Hif].
  set (mzf := compress (non_zero_mask ints) mzs) in *.
  set (intf := compress (non_zero_mask ints) ints) in *.
  assert (Hmne : mzf ≠ []) by (intros E; rewrite E in Hmf; by apply elem_of_nil in Hmf).
  assert (Hine : intf ≠ []) by (intros E; rewrite E in Hif; by apply elem_of_nil in Hif).
  destruct (np_max_spec mzf Hmne) as (mx & Hmx & Hmxin & Hmxle).
  destruct (np_min_spec mzf Hmne) as (mn & Hmn & Hmnin & Hmnle).
  destruct (np_max_spec intf Hine) as (ix & Hix & Hixin & Hixle).
  destruct (np_min_spec intf Hine) as (im & Him & _).
  exists (mn - (mx - mn) * (5 # 100))%Q, (mx + (mx - mn) * (5 # 100))%Q,
         (ix * (11 # 10))%Q.
  pose proof (Hmnle mx Hmxin) as Hrange.
  split; [|split].
  - unfold reset_mass_spectrum_zoom. rewrite He.
    rewrite (filter_spectrum_ok e mzs ints Hm Hi Hlen).
    fold mzf intf. unfold spectrum_limits.
    destruct mzf as [|m0 mzf']; [done|]. simpl length. simpl Nat.ltb.
    cbv iota. by rewrite Hmx, Hmn, Hix, Him.
  - intros m i Hin Hpos.
    destruct (elem_of_zip_compress ints mzs m i Hlen Hin Hpos) as [Hm' Hi'].
    fold mzf in Hm'. fold intf in Hi'.
    pose proof (Hmnle m Hm'). pose proof (Hmxle m Hm').
    pose proof (Hixle i Hi'). repeat split; lra.
  - intros m0 Hall.
    assert (Hsub : forall m, m ∈ mzf -> (m == m0)%Q).
    { intros m Hmin. rewrite Forall_forall in Hall. apply Hall.
      by eapply elem_of_compress. }
    pose proof (Hsub mx Hmxin) as E1. pose proof (Hsub mn Hmnin) as E2.
    split; lra.
Qed.

Lemma compress_non_positive (ints : list Q) : forall mzs : list Q,
  Forall (fun i => (i <= 0)%Q) ints -> compress (non_zero_mask ints) mzs = [].
Proof.
  induction ints as [|i ints IH]; intros [|m mzs] Hall; simpl; try done.
  apply Forall_cons in Hall as [Hi Hall].
  apply Qlt_bool_false_iff in Hi. rewrite Hi. by apply IH.
Qed.

(** [reset_mass_spectrum_zoom] sets no limits when the selection has no
    store entry or when no intensity of the entry is positive, and raises
    IndexError when the entry's arrays have different lengths. *)
Theorem reset_mass_spectrum_zoom_sets_nothing (s : browser) :
  (spectra_data s !! current_spectrum_index s = None ->
     reset_mass_spectrum_zoom s = Ok None) /\
  (forall e mzs ints,
     spectra_data s !! current_spectrum_index s = Some e ->
     e_mz e = PyArray mzs -> e_intensities e = PyArray ints ->
     (length mzs = length ints -> Forall (fun i => (i <= 0)%Q) ints ->
        reset_mass_spectrum_zoom s = Ok None) /\
     (length mzs ≠ length ints ->
        reset_mass_spectrum_zoom s = Raise IndexError)).
Proof.
  split.
  - intros Hn. unfold reset_mass_spectrum_zoom. by rewrite Hn.
  - intros e mzs ints He Hm Hi. unfold reset_mass_spectrum_zoom. rewrite He.
    split.
    + intros Hlen Hall. rewrite (filter_spectrum_ok e mzs ints Hm Hi Hlen).
      by rewrite compress_non_positive.
    + intros Hne. unfold filter_spectrum. rewrite Hm, Hi.
      rewrite mask_index_mismatch; [done|]. by rewrite length_non_zero_mask.
Qed.

(** [reset_all_plots] with a loaded TIC series sets TIC limits that
    contain every retention time, and an upper y limit that is at least
    every non-negative total intensity; it then goes on to the spectrum
    plot as [reset_mass_spectrum_zoom] does. *)
Theorem reset_all_plots_tic_limits (s : browser) (td : tic) :
  tic_data s = Some td -> times td ≠ [] -> intensities td ≠ [] ->
  exists lo hi top,
    reset_all_plots s
    = Ok (Some ((lo, hi), (0%Q, top)), reset_mass_spectrum_zoom s) /\
    (forall t, t ∈ times td -> (lo <= t)%Q /\ (t <= hi)%Q) /\
    (forall c, c ∈ intensities td -> (0 <= c)%Q -> (c <= top)%Q).
Proof.
  intros Htd Ht Hi.
  destruct (np_max_spec (times td) Ht) as (mx & Hmx & Hmxin & Hmxle).
  destruct (np_min_spec (times td) Ht) as (mn & Hmn & Hmnin & Hmnle).
  destruct (np_max_spec (intensities td) Hi) as (ix & Hix & Hixin & Hixle).
  destruct (np_min_spec (intensities td) Hi) as (im & Him & _).
  exists (mn - (mx - mn) * (2 # 100))%Q, (mx + (mx - mn) * (2 # 100))%Q,
         (ix * (105 # 100))%Q.
  pose proof (Hmnle mx Hmxin) as Hrange.
  split; [|split].
  - unfold reset_all_plots, tic_limits. rewrite Htd.
    destruct (times td) as [|t0 ts]; [done|]. simpl length. simpl Nat.ltb.
    cbv iota. by rewrite Hmx, Hmn, Hix, Him.
  - intros t Hin. pose proof (Hmnle t Hin). pose proof (Hmxle t Hin).
    split; lra.
  - intros c Hin Hpos. pose proof (Hixle c Hin). lra.
Qed.

(** ** Scroll zoom *)

Lemma scroll_axis_distances (lo hi x k : Q) :
  ~ (hi - lo == 0)%Q ->
  (x - fst (scroll_axis (lo, hi) x k) == (x - lo) * k)%Q /\
  (snd (scroll_axis (lo, hi) x k) - x == (hi - x) * k)%Q.
Proof.
  intros Hw. unfold scroll_axis. simpl. split; field; exact Hw.
Qed.

(** A scroll over the spectrum plot zooms about the pointer: on each axis
    the distances from the pointer to the two limits are multiplied by the
    scale factor (in exact arithmetic), so the pointer keeps its relative
    position in the plot. *)
Theorem on_scroll_zooms_about_anchor (shown : limits) (ev : scroll_event)
    (s : browser) (x y lo hi blo bhi : Q) :
  scroll_inaxes ev = Some ax2 ->
  is_Some (spectra_data s !! current_spectrum_index s) ->
  scroll_xdata ev = Some x -> scroll_ydata ev = Some y ->
  default shown (ax2_lim s) = ((lo, hi), (blo, bhi)) ->
  ~ (hi - lo == 0)%Q -> ~ (bhi - blo == 0)%Q ->
  exists lo' hi' blo' bhi',
    ax2_lim (on_scroll shown ev s) = Some ((lo', hi'), (blo', bhi')) /\
    (x - lo' == (x - lo) * scale_factor ev)%Q /\
    (hi' - x == (hi - x) * scale_factor ev)%Q /\
    (y - blo' == (y - blo) * scale_factor ev)%Q /\
    (bhi' - y == (bhi - y) * scale_factor ev)%Q.
Proof.
  intros Hax Hin Hx Hy Hcur Hw Hh.
  destruct (scroll_axis_distances lo hi x (scale_factor ev) Hw) as [H1 H2].
  destruct (scroll_axis_distances blo bhi y (scale_factor ev) Hh) as [H3 H4].
  exists (fst (scroll_axis (lo, hi) x (scale_factor ev))),
         (snd (scroll_axis (lo, hi) x (scale_factor ev))),
         (fst (scroll_axis (blo, bhi) y (scale_factor ev))),
         (snd (scroll_axis (blo, bhi) y (scale_factor ev))).
  split; [|done].
  unfold on_scroll. rewrite Hax, Hx, Hy, Hcur.
  rewrite bool_decide_eq_true_2 by done.
  rewrite bool_decide_eq_true_2 by done. simpl.
  reflexivity.
Qed.

Lemma scroll_axis_width (lo hi x k : Q) :
  ~ (hi - lo == 0)%Q ->
  (snd (scroll_axis (lo, hi) x k) - fst (scroll_axis (lo, hi) x k)
   == (hi - lo) * k)%Q.
Proof.
  intros Hw. destruct (scroll_axis_distances lo hi x k Hw) as [H1 H2]. lra.
Qed.

Lemma scroll_axis_round_trip (lo hi x : Q) :
  ~ (hi - lo == 0)%Q ->
  (fst (scroll_axis (scroll_axis (lo, hi) x (1 / (11 # 10))) x (11 # 10)) == lo)%Q /\
  (snd (scroll_axis (scroll_axis (lo, hi) x (1 / (11 # 10))) x (11 # 10)) == hi)%Q.
Proof.
  intros Hw.
  destruct (scroll_axis_distances lo hi x (1 / (11 # 10)) Hw) as [H1 H2].
  pose proof (scroll_axis_width lo hi x (1 / (11 # 10)) Hw) as Hw1.
  destruct (scroll_axis (lo, hi) x (1 / (11 # 10))) as [lo1 hi1] eqn:E.
  simpl in H1, H2, Hw1.
  assert (Hk : (1 / (11 # 10) == 10 # 11)%Q) by reflexivity.
  rewrite Hk in H1, H2, Hw1.
  assert (Hw' : ~ (hi1 - lo1 == 0)%Q).
  { intros Hz. apply Hw. lra. }
  destruct (scroll_axis_distances lo1 hi1 x (11 # 10) Hw') as [H3 H4].
  split; lra.
Qed.

(** A scroll up followed by a scroll down at the same pointer position
    gives back the limits the plot had (in exact arithmetic). *)
Theorem scroll_up_then_down_restores (shown : limits) (up down : scroll_event)
    (s : browser) (x y lo hi blo bhi : Q) :
  scroll_inaxes up = Some ax2 -> scroll_inaxes down = Some ax2 ->
  scroll_up up = true -> scroll_up down = false ->
  scroll_xdata up = Some x -> scroll_ydata up = Some y ->
  scroll_xdata down = Some x -> scroll_ydata down = Some y ->
  is_Some (spectra_data s !! current_spectrum_index s) ->
  default shown (ax2_lim s) = ((lo, hi), (blo, bhi)) ->
  ~ (hi - lo == 0)%Q -> ~ (bhi - blo == 0)%Q ->
  exists lo' hi' blo' bhi',
    ax2_lim (on_scroll shown down (on_scroll shown up s))
    = Some ((lo', hi'), (blo', bhi')) /\
    (lo' == lo)%Q /\ (hi' == hi)%Q /\ (blo' == blo)%Q /\ (bhi' == bhi)%Q.
Proof.
  intros Hau Had Hu Hd Hxu Hyu Hxd Hyd Hin Hcur Hw Hh.
  destruct (scroll_axis_round_trip lo hi x Hw) as [H1 H2].
  destruct (scroll_axis_round_trip blo bhi y Hh) as [H3 H4].
  eexists _, _, _, _. split; [|split; [exact H1|split; [exact H2|split; [exact H3|exact H4]]]].
  unfold on_scroll at 2. rewrite Hau, Hxu, Hyu, Hcur.
  rewrite !bool_decide_eq_true_2 by done. simpl.
  unfold on_scroll. rewrite Had, Hxd, Hyd. simpl.
  rewrite !bool_decide_eq_true_2 by done. simpl.
  unfold scale_factor. rewrite Hu, Hd. reflexivity.
Qed.

(** ** Handlers and the index *)

Section Handlers.

Context `{!ArgSort}.

Lemma update_plots_fields s :
  tic_data (update_plots s).1 = tic_data s /\
  spectra_data (update_plots s).1 = spectra_data s /\
  mzml_file (update_plots s).1 = mzml_file s /\
  current_spectrum_index (update_plots s).1 = current_spectrum_index s /\
  status (update_plots s).1 = status s /\
  loading_label (update_plots s).1 = loading_label s.
Proof. rewrite update_plots_state. by destruct (tic_data s) eqn:E. Qed.

Lemma first_index_lookup (l : list nat) : forall x k,
  first_index x l = Some k -> l !! k = Some x.
Proof.
  induction l as [|y l IH]; intros x k Hk; simpl in *; [done|].
  destruct (decide (x = y)) as [->|Hne].
  - by injection Hk as <-.
  - destruct (first_index x l) as [k'|] eqn:E; [|done].
    injection Hk as <-. simpl. by apply IH.
Qed.

Ltac run_handler :=
  unfold mbind, M_bind, lift, getitem, list_index, store_getitem, modify,
    mret, M_ret, raise;
  repeat (case_match; simpl in *; simplify_eq; try done).

Ltac use_update_plots :=
  repeat match goal with
  | H : update_plots ?x = (?s', _) |- _ =>
      let F := fresh "F" in
      pose proof (update_plots_fields x) as F; rewrite H in F; simpl in F;
      destruct F as (? & ? & ? & ? & ? & ?); clear H
  end.

Lemma on_click_index ev s :
  tic_data (on_click ev s).1 = tic_data s /\
  spectra_data (on_click ev s).1 = spectra_data s /\
  mzml_file (on_click ev s).1 = mzml_file s.
Proof.
  unfold on_click. run_handler; use_update_plots; simpl in *;
    repeat split; congruence.
Qed.

Lemma on_left_arrow_index s :
  tic_data (on_left_arrow s).1 = tic_data s /\
  spectra_data (on_left_arrow s).1 = spectra_data s /\
  mzml_file (on_left_arrow s).1 = mzml_file s.
Proof.
  unfold on_left_arrow. run_handler; use_update_plots; simpl in *;
    repeat split; congruence.
Qed.

Lemma on_right_arrow_index s :
  tic_data (on_right_arrow s).1 = tic_data s /\
  spectra_data (on_right_arrow s).1 = spectra_data s /\
  mzml_file (on_right_arrow s).1 = mzml_file s.
Proof.
  unfold on_right_arrow. run_handler; use_update_plots; simpl in *;
    repeat split; congruence.
Qed.

(** No mouse, key or scroll handler changes the TIC series, the spectrum
    store or the file name: they are written by [load_mzml_file] only. *)
Theorem handlers_preserve_index (s : browser) (ev : event)
    (sev : scroll_event) (shown : limits) :
  let unchanged (s' : browser) :=
    tic_data s' = tic_data s /\ spectra_data s' = spectra_data s /\
    mzml_file s' = mzml_file s in
  unchanged (on_click ev s).1 /\ unchanged (on_left_arrow s).1 /\
  unchanged (on_right_arrow s).1 /\ unchanged (on_mouse_move ev s) /\
  unchanged (on_mouse_release ev s) /\ unchanged (on_scroll shown sev s).
Proof.
  cbv zeta.
  split; [apply on_click_index|]. split; [apply on_left_arrow_index|].
  split; [apply on_right_arrow_index|].
  unfold on_mouse_move, on_mouse_release, on_scroll.
  repeat split; repeat (case_match; simpl; try done).
Qed.

(** When the current selection is a sequence index of the TIC series, it
    still is one after a click or an arrow key, whatever the event and
    whether or not the handler raises. *)
Theorem selection_stays_in_tic (s : browser) (td : tic) (ev : event) :
  tic_data s = Some td -> current_spectrum_index s ∈ indices td ->
  current_spectrum_index (on_click ev s).1 ∈ indices td /\
  current_spectrum_index (on_left_arrow s).1 ∈ indices td /\
  current_spectrum_index (on_right_arrow s).1 ∈ indices td.
Proof.
  intros Htd Hin. repeat split.
  - unfold on_click. run_handler; use_update_plots; simpl in *; subst;
      try done; by eapply list_elem_of_lookup_2.
  - unfold on_left_arrow. run_handler; use_update_plots; simpl in *; subst;
      try done; by eapply list_elem_of_lookup_2.
  - unfold on_right_arrow. run_handler; use_update_plots; simpl in *; subst;
      try done; by eapply list_elem_of_lookup_2.
Qed.

(** A step to the previous entry followed by a step to the next one
    restores the selection whenever the selection is not at the first
    position. At the first position the left arrow, and at the last position
    the right arrow, return with the whole browser state untouched. *)
Theorem step_prev_next_round_trip (s : browser) (td : tic) (p : nat) :
  tic_data s = Some td -> NoDup (indices td) ->
  indices td !! p = Some (current_spectrum_index s) ->
  (0 < p ->
     current_spectrum_index (on_left_arrow s).1 ≠ current_spectrum_index s /\
     current_spectrum_index (on_right_arrow (on_left_arrow s).1).1
       = current_spectrum_index s) /\
  (p = 0 -> on_left_arrow s = (s, Ok tt)) /\
  (S p = length (indices td) -> on_right_arrow s = (s, Ok tt)).
Proof.
  intros Htd Hnd Hp. pose proof (lookup_lt_Some _ _ _ Hp) as Hlt.
  destruct (on_left_arrow_step s td p Htd Hnd Hp) as [Ht Hc].
  split; [|split].
  - intros Hpos. destruct p as [|q]; [lia|].
    destruct (lookup_lt_is_Some_2 (indices td) q) as [idx Hidx]; [lia|].
    rewrite Hidx in Hc. simpl in Hc. split.
    + rewrite Hc. intros ->.
      pose proof (NoDup_lookup _ _ _ _ Hnd Hidx Hp). lia.
    + rewrite <- Hc in Hidx.
      destruct (on_right_arrow_step _ td q Ht Hnd Hidx) as [_ Hc'].
      rewrite Hc', Hp. done.
  - intros ->. unfold on_left_arrow. rewrite Htd.
    destruct (1 <? length (indices td)); [|done].
    unfold mbind, M_bind, list_index.
    by rewrite (first_index_NoDup _ _ _ Hnd Hp).
  - intros Hlast. unfold on_right_arrow. rewrite Htd.
    destruct (1 <? length (indices td)); [|done].
    unfold mbind, M_bind, list_index.
    rewrite (first_index_NoDup _ _ _ Hnd Hp). simpl.
    assert ((p <? length (indices td) - 1) = false) as ->; [|done].
    apply Nat.ltb_ge. lia.
Qed.

(** The right arrow from a position that has a successor moves the
    selection there and drops the zoom of the spectrum plot. The redraw
    then raises ValueError when the TIC times and intensities differ in
    length. When they agree, the handler raises KeyError when the store has
    no entry under the new selection, passes on the exception of the redraw
    when the entry cannot be drawn, and otherwise reports the entry's
    retention time in the status line. *)
Theorem step_right_outcome (s : browser) (td : tic) (p idx : nat) :
  tic_data s = Some td -> NoDup (indices td) ->
  indices td !! p = Some (current_spectrum_index s) ->
  indices td !! S p = Some idx ->
  let moved := set_ax2_lim None (set_current_spectrum_index idx s) in
  (length (times td) ≠ length (intensities td) ->
     on_right_arrow s = (moved, Raise ValueError)) /\
  (length (times td) = length (intensities td) ->
     (spectra_data s !! idx = None ->
        on_right_arrow s = (moved, Raise KeyError)) /\
     (forall e r,
        spectra_data s !! idx = Some e -> render_spectrum_arrays e = Ok r ->
        on_right_arrow s = (set_status (SelectedRight (e_rt e)) moved, Ok tt)) /\
     (forall e x,
        spectra_data s !! idx = Some e -> render_spectrum_arrays e = Raise x ->
        on_right_arrow s = (moved, Raise x))).
Proof.
  intros Htd Hnd Hp Hidx. cbv zeta.
  pose proof (lookup_lt_Some _ _ _ Hidx) as Hlt.
  assert (Hrun : on_right_arrow s
    = (idx' ← getitem (indices td) (p + 1);
       modify (set_current_spectrum_index idx') ;;
       update_plots ;;
       e ← store_getitem idx';
       modify (set_status (SelectedRight (e_rt e)))) s).
  { unfold on_right_arrow. rewrite Htd.
    assert ((1 <? length (indices td)) = true) as -> by (apply Nat.ltb_lt; lia).
    unfold mbind at 1, M_bind at 1, list_index.
    rewrite (first_index_NoDup _ _ _ Hnd Hp). unfold mret, M_ret.
    assert ((p <? length (indices td) - 1) = true) as -> by (apply Nat.ltb_lt; lia).
    done. }
  rewrite Hrun. unfold mbind, M_bind, getitem, modify, store_getitem, update_plots.
  replace (p + 1) with (S p) by lia. rewrite Hidx. simpl. rewrite Htd.
  unfold plot_tic. split.
  - intros Hne. by rewrite decide_False.
  - intros Heq. rewrite decide_True by done. repeat split.
    + intros Hn. rewrite Hn. simpl. by rewrite Hn.
    + intros e r He Hr. rewrite He, Hr. simpl. by rewrite He.
    + intros e x He Hr. by rewrite He, Hr.
Qed.

(** A complete drag on the spectrum plot (left press, a move, left
    release, all inside the plot and with defined coordinates at press and
    move) commits the rectangle spanned by the press point and the last move
    point, its limits in increasing order on each axis, and leaves the
    machine idle. The coordinates of the release event itself are not
    used. *)
Theorem drag_zoom_commits_rectangle (s : browser) (down move up : event)
    (x1 y1 x2 y2 : Q) :
  inaxes down = Some ax2 -> button down = 1 ->
  xdata down = Some x1 -> ydata down = Some y1 ->
  inaxes move = Some ax2 -> xdata move = Some x2 -> ydata move = Some y2 ->
  inaxes up = Some ax2 -> button up = 1 ->
  let s' := on_mouse_release up (on_mouse_move move (on_click down s).1) in
  ax2_lim s' = Some ((Qmin x1 x2, Qmax x1 x2), (Qmin y1 y2, Qmax y1 y2)) /\
  zoom_active s' = false /\ zoom_start s' = None /\ zoom_end s' = None /\
  status s' = Zoomed /\
  (Qmin x1 x2 <= Qmax x1 x2)%Q /\ (Qmin y1 y2 <= Qmax y1 y2)%Q.
Proof.
  intros Hd Hb Hx1 Hy1 Hm Hx2 Hy2 Hu Hbu. cbv zeta.
  assert (Hclick : (on_click down s).1
    = set_status ClickAndDrag (set_zoom true (Some (Some x1, Some y1)) (zoom_end s) s)).
  { unfold on_click.
    assert (inaxes_is ax1 down = false) as ->.
    { apply inaxes_is_false. rewrite Hd. discriminate. }
    rewrite (proj2 (inaxes_is_true ax2 down) Hd), Hb, Hx1, Hy1. done. }
  rewrite Hclick. unfold on_mouse_move. simpl.
  rewrite (proj2 (inaxes_is_true ax2 move) Hm), Hx2, Hy2. simpl.
  unfold on_mouse_release. simpl.
  rewrite (proj2 (inaxes_is_true ax2 up) Hu), Hbu. simpl.
  repeat split.
  - eapply Qle_trans; [apply Q.le_min_l|apply Q.le_max_l].
  - eapply Qle_trans; [apply Q.le_min_l|apply Q.le_max_l].
Qed.

(** A left press and release inside the spectrum plot with no move in
    between, starting with no tracked end point, leaves the limits of the
    plot as they were and the machine idle. *)
Theorem click_without_drag_keeps_limits (s : browser) (down up : event) :
  zoom_end s = None ->
  inaxes down = Some ax2 -> button down = 1 ->
  inaxes up = Some ax2 -> button up = 1 ->
  let s' := on_mouse_release up (on_click down s).1 in
  ax2_lim s' = ax2_lim s /\ zoom_active s' = false /\
  zoom_start s' = None /\ zoom_end s' = None.
Proof.
  intros Hz Hd Hb Hu Hbu. cbv zeta.
  unfold on_click.
  assert (inaxes_is ax1 down = false) as ->.
  { apply inaxes_is_false. rewrite Hd. discriminate. }
  rewrite (proj2 (inaxes_is_true ax2 down) Hd), Hb. simpl.
  unfold on_mouse_release. simpl.
  rewrite (proj2 (inaxes_is_true ax2 up) Hu), Hbu, Hz. simpl.
  by destruct (xdata down), (ydata down).
Qed.

End Handlers.

(** ** More on the index build *)

Lemma step_store_grows cp i r f k e :
  spectra_data (self (try_except (loop_body cp i r) f)) !! k = Some e ->
  spectra_data (self f) !! k = Some e \/
  (k = i /\ e_index e = i /\ (exists x l, e_mz e = PyArray (x :: l)) /\
   e_intensities e ≠ PyNone).
Proof.
  destruct (reaches_insert r) eqn:Hreach.
  - destruct (rt_after r (rt f)) as [t|] eqn:Hrt.
    + destruct (reaches_insert_inv r Hreach)
        as [_ (x & l & iv & Hm & Hiv & Hnn)].
      rewrite (step_store_insert cp i r f t _ _ Hreach Hm Hiv Hrt).
      destruct (decide (k = i)) as [->|Hne].
      * rewrite lookup_insert_eq. intros [= <-]. right. simpl. eauto 10.
      * rewrite lookup_insert_ne by done. auto.
    + rewrite step_store_skip; auto.
  - rewrite step_store_skip; auto.
Qed.

Lemma step_store_keeps cp i r f k :
  is_Some (spectra_data (self f) !! k) ->
  is_Some (spectra_data (self (try_except (loop_body cp i r) f)) !! k).
Proof.
  intros Hk. destruct (decide (k = i)) as [->|Hne].
  - destruct (reaches_insert r) eqn:Hreach.
    + destruct (rt_after r (rt f)) as [t|] eqn:Hrt.
      * destruct (reaches_insert_inv r Hreach)
          as [_ (x & l & iv & Hm & Hiv & Hnn)].
        rewrite (step_store_insert cp i r f t _ _ Hreach Hm Hiv Hrt).
        rewrite lookup_insert_eq. eauto.
      * rewrite step_store_skip; auto.
    + rewrite step_store_skip; auto.
  - by rewrite step_store_other.
Qed.

Lemma for_loop_store_grows cp l : forall i f k e,
  spectra_data (self (for_loop cp i l f)) !! k = Some e ->
  spectra_data (self f) !! k = Some e \/
  (i <= k < i + length l /\ e_index e = k /\
   (exists x l', e_mz e = PyArray (x :: l')) /\ e_intensities e ≠ PyNone).
Proof.
  induction l as [|r l IH]; intros i f k e Hk; simpl in *; [auto|].
  apply IH in Hk as [Hk|(Hr & Hrest)].
  - apply step_store_grows in Hk as [Hk|(-> & Hrest)]; [auto|].
    right. split; [lia|]. done.
  - right. split; [lia|done].
Qed.

Lemma for_loop_store_keeps cp l : forall i f k,
  is_Some (spectra_data (self f) !! k) ->
  is_Some (spectra_data (self (for_loop cp i l f)) !! k).
Proof.
  induction l as [|r l IH]; intros i f k Hk; simpl; [done|].
  apply IH. by apply step_store_keeps.
Qed.

Lemma for_loop_indices_le_times cp l : forall i f,
  length (spectrum_indices f) <= length (tic_times f) ->
  length (spectrum_indices (for_loop cp i l f))
  <= length (tic_times (for_loop cp i l f)).
Proof.
  induction l as [|r l IH]; intros i f Hle; simpl; [done|].
  apply IH. rewrite step_tic_times, step_spectrum_indices, !length_app.
  destruct (tic_ok r) eqn:Hok; simpl; [|lia].
  destruct (tic_ok_inv r Hok) as (t & c & Hl & Hst & _).
  unfold time_appended. rewrite Hl, Hst. simpl. lia.
Qed.

Lemma tic_positions_bound l : forall i k,
  k ∈ tic_positions i l -> k < i + length l.
Proof.
  intros i k (r & Hle & Hl & _)%elem_of_tic_positions.
  apply lookup_lt_Some in Hl. lia.
Qed.

Section MoreLoad.

Context `{!ArgSort}.

(** The TIC series a load commits is not empty; its sequence indices are
    strictly increasing positions of the stream; its intensities and
    indices have the same length and its times are at least as many, with
    equality when no level-1 record has its retention time returned and
    then fails the ion current lookup. *)
Theorem load_tic_series_shape cp path msrun s (td : tic) :
  (load_mzml_file cp path (Yields msrun) s).2 ≠ Raise NoMS1SpectraError ->
  tic_data (load_mzml_file cp path (Yields msrun) s).1 = Some td ->
  indices td ≠ [] /\
  StronglySorted lt (indices td) /\
  Forall (fun k => k < length msrun) (indices td) /\
  length (intensities td) = length (indices td) /\
  length (indices td) <= length (times td) /\
  (Forall (fun r => tic_ok r = false -> time_appended r = []) msrun ->
   length (times td) = length (indices td)).
Proof.
  intros Hres Htd.
  assert (Hne : spectrum_indices (loop_result cp path msrun s) ≠ []).
  { intros He. by apply load_mzml_file_NoMS1 in He. }
  destruct (load_mzml_file_commit cp path msrun s Hne) as (_ & Ht & _).
  rewrite Ht in Htd. injection Htd as <-. simpl.
  split; [done|]. rewrite loop_result_indices.
  split; [apply tic_positions_sorted|].
  split.
  { apply Forall_forall. intros k Hk. by apply tic_positions_bound in Hk. }
  rewrite <- loop_result_indices with (cp := cp) (path := path) (s := s).
  unfold loop_result.
  split; [by apply for_loop_tic_intensities_length|].
  split; [by apply for_loop_indices_le_times|].
  intros Hall. by apply for_loop_tic_times_length.
Qed.

Lemma load_mzml_file_ok_state cp path msrun s :
  (load_mzml_file cp path (Yields msrun) s).2 = Ok tt ->
  exists f middle,
    f = loop_result cp path msrun s /\
    spectrum_indices f !! (length (spectrum_indices f) / 2) = Some middle /\
    (load_mzml_file cp path (Yields msrun) s).1
    = hide_loading_indicator
        (set_status (Loaded path (length (spectrum_indices f)))
           (set_ax2_lim None
              (set_current_spectrum_index middle
                 (set_mzml_file (Some path)
                    (set_tic_data
                       (Some {| times := tic_times f;
                                intensities := tic_intensities f;
                                indices := spectrum_indices f |})
                       (self f)))))).
Proof.
  unfold load_mzml_file. fold (loop_result cp path msrun s).
  set (f := loop_result cp path msrun s).
  destruct (spectrum_indices f) as [|i0 rest] eqn:Hidx; [done|].
  destruct (lookup_lt_is_Some_2 (i0 :: rest) (length (i0 :: rest) / 2)) as [mid Hmid].
  { apply Nat.div_lt; simpl; lia. }
  unfold mbind, M_bind, modify, getitem. rewrite Hmid.
  unfold mret, M_ret.
  match goal with |- context [update_plots ?x] =>
    pose proof (update_plots_state x) as Hs;
    destruct (update_plots x) as [s1 [[]|e]] end; simpl in *; subst s1;
    [|done].
  intros _. exists f, mid. by rewrite Hidx.
Qed.

(** After a load that returns normally the selection is the entry at
    position [len // 2] of the new TIC series, the file name is the loaded
    path, the status line reads "Loaded" with the number of TIC entries,
    the loading window is gone and the spectrum plot is autoscaled. *)
Theorem load_selects_middle cp path msrun s :
  (load_mzml_file cp path (Yields msrun) s).2 = Ok tt ->
  let s' := (load_mzml_file cp path (Yields msrun) s).1 in
  exists td,
    tic_data s' = Some td /\
    indices td !! (length (indices td) / 2) = Some (current_spectrum_index s') /\
    mzml_file s' = Some path /\
    status s' = Loaded path (length (indices td)) /\
    loading_label s' = false /\ ax2_lim s' = None.
Proof.
  intros Hok. cbv zeta.
  destruct (load_mzml_file_ok_state cp path msrun s Hok) as (f & mid & _ & Hmid & ->).
  eexists. split; [reflexivity|]. simpl. by repeat split.
Qed.

(** When the load of a file that the reader read through raises anything
    but the error of the emptiness check, the exception comes from the
    redraw: the ValueError of the TIC plot when the times and intensities
    differ in length, or else the exception of drawing the middle spectrum.
    The new TIC series, file name and selection have already been
    assigned. *)
Theorem load_commits_before_redraw_error cp path msrun s (e : exn) :
  (load_mzml_file cp path (Yields msrun) s).2 = Raise e -> e ≠ NoMS1SpectraError ->
  let s' := (load_mzml_file cp path (Yields msrun) s).1 in
  exists td,
    tic_data s' = Some td /\ indices td = tic_positions 0 msrun /\
    indices td !! (length (indices td) / 2) = Some (current_spectrum_index s') /\
    mzml_file s' = Some path /\
    ((length (times td) ≠ length (intensities td) /\ e = ValueError) \/
     (length (times td) = length (intensities td) /\
      exists spectrum,
        spectra_data s' !! current_spectrum_index s' = Some spectrum /\
        render_spectrum_arrays spectrum = Raise e)).
Proof.
  intros Hres Hne. cbv zeta. revert Hres.
  unfold load_mzml_file. fold (loop_result cp path msrun s).
  pose proof (loop_result_indices cp path msrun s) as Hpos.
  set (f := loop_result cp path msrun s) in *.
  destruct (spectrum_indices f) as [|i0 rest] eqn:Hidx.
  { simpl. by intros [= <-]. }
  destruct (lookup_lt_is_Some_2 (i0 :: rest) (length (i0 :: rest) / 2)) as [mid Hmid].
  { apply Nat.div_lt; simpl; lia. }
  unfold mbind, M_bind, modify, getitem. rewrite Hmid.
  unfold mret, M_ret, update_plots, plot_tic. simpl.
  destruct (decide (length (tic_times f) = length (tic_intensities f)))
    as [Heq|Hneq].
  - destruct (spectra_data (self f) !! mid) as [sp|] eqn:Hsp; [|done].
    destruct (render_spectrum_arrays sp) as [r|e'] eqn:Hr; [done|].
    simpl. intros [= <-].
    exists {| times := tic_times f; intensities := tic_intensities f;
              indices := i0 :: rest |}.
    simpl. repeat (split; [done|]). right. split; [done|]. by exists sp.
  - simpl. intros [= <-].
    exists {| times := tic_times f; intensities := tic_intensities f;
              indices := i0 :: rest |}.
    simpl. repeat (split; [done|]). by left.
Qed.

(** A load never removes a key from the spectrum store, and every entry
    found in the store afterwards either was there before or was inserted
    by this load: then its key is a position of the stream, its index field
    is its key, its mz array is not empty and its intensity value is not
    None. *)
Theorem load_store_growth cp path msrun s (k : nat) :
  (is_Some (spectra_data s !! k) ->
   is_Some (spectra_data (load_mzml_file cp path (Yields msrun) s).1 !! k)) /\
  (forall e,
     spectra_data (load_mzml_file cp path (Yields msrun) s).1 !! k = Some e ->
     spectra_data s !! k = Some e \/
     (k < length msrun /\ e_index e = k /\
      (exists x l, e_mz e = PyArray (x :: l)) /\ e_intensities e ≠ PyNone)).
Proof.
  rewrite load_mzml_file_store. unfold loop_result. split.
  - intros Hk. by apply for_loop_store_keeps.
  - intros e He. apply for_loop_store_grows in He as [He|(Hk & Hrest)]; [auto|].
    right. split; [lia|done].
Qed.

(** After [open_file] the loading window is gone, whether the load
    returned or raised, and whether or not the file could be read. *)
Theorem open_file_hides_loading_indicator cp path (file : reader) s :
  loading_label (open_file cp path file s) = false.
Proof.
  unfold open_file. destruct file as [|msrun]; [done|].
  destruct (load_mzml_file cp path (Yields msrun) (show_loading_indicator s))
    as [s' [[]|e]] eqn:Hload; [|done].
  assert (Hok : (load_mzml_file cp path (Yields msrun) (show_loading_indicator s)).2 = Ok tt)
    by by rewrite Hload.
  destruct (load_mzml_file_ok_state cp path msrun _ Hok) as (f & mid & _ & _ & Hs).
  rewrite Hload in Hs. simpl in Hs. by rewrite Hs.
Qed.

(** For a stream in which every level-1 record has a non-empty mz array
    and an intensity value that is not None, every sequence index of the
    committed TIC series is a key of the store. *)
Theorem complete_ms1_stream_indices_in_store cp path msrun s (td : tic) (k : nat) :
  Forall (fun r => ms_level r = Returns 1 ->
            exists x l iv, mz r = Returns (PyArray (x :: l)) /\
                           sp_i r = Returns iv /\ iv ≠ PyNone) msrun ->
  (load_mzml_file cp path (Yields msrun) s).2 ≠ Raise NoMS1SpectraError ->
  tic_data (load_mzml_file cp path (Yields msrun) s).1 = Some td ->
  k ∈ indices td ->
  exists e, spectra_data (load_mzml_file cp path (Yields msrun) s).1 !! k = Some e /\
            e_index e = k.
Proof.
  intros Hall Hres Htd Hk.
  assert (Hne : spectrum_indices (loop_result cp path msrun s) ≠ []).
  { intros He. by apply load_mzml_file_NoMS1 in He. }
  destruct (load_mzml_file_commit cp path msrun s Hne) as (_ & Ht & _).
  rewrite Ht in Htd. injection Htd as <-. simpl in *.
  rewrite loop_result_indices in Hk.
  apply elem_of_tic_positions in Hk as (r & _ & Hr & Hok).
  rewrite Nat.sub_0_r in Hr.
  destruct (tic_ok_inv r Hok) as (t & c & Hl & Hst & Hc).
  rewrite Forall_forall in Hall.
  destruct (Hall r (list_elem_of_lookup_2 _ _ _ Hr) Hl)
    as (x & l & iv & Hm & Hiv & Hnn).
  exists {| e_rt := t; e_mz := PyArray (x :: l); e_intensities := iv;
            e_index := k |}.
  split; [|reflexivity].
  rewrite load_mzml_file_store. unfold loop_result.
  apply (for_loop_store_insert cp msrun k r _ t (PyArray (x :: l)) iv Hr);
    try done.
  - by eapply reaches_insert_ms1.
  - by apply rt_after_ms1.
Qed.

End MoreLoad.

Lemma for_loop_times_ahead cp l : forall i f d,
  length (spectrum_indices f) + d <= length (tic_times f) ->
  length (spectrum_indices (for_loop cp i l f)) + d
  <= length (tic_times (for_loop cp i l f)).
Proof.
  induction l as [|r l IH]; intros i f d Hle; simpl; [done|].
  apply IH. rewrite step_tic_times, step_spectrum_indices, !length_app.
  destruct (tic_ok r) eqn:Hok; simpl; [|lia].
  destruct (tic_ok_inv r Hok) as (t & c & Hl & Hst & _).
  unfold time_appended. rewrite Hl, Hst. simpl. lia.
Qed.

Lemma for_loop_times_longer cp l : forall i f,
  length (spectrum_indices f) <= length (tic_times f) ->
  Exists (fun r => ms_level r = Returns 1 /\
                   (exists t, scan_time_in_minutes r = Returns t) /\
                   TIC r = Raises) l ->
  length (spectrum_indices (for_loop cp i l f))
  < length (tic_times (for_loop cp i l f)).
Proof.
  induction l as [|r l IH]; intros i f Hle Hex; simpl.
  - by apply Exists_nil in Hex.
  - apply Exists_cons in Hex as [(Hl & [t Hst] & Hc)|Hex].
    + pose proof (for_loop_times_ahead cp l (S i)
                    (try_except (loop_body cp i r) f) 1) as Hd.
      rewrite step_tic_times, step_spectrum_indices, !length_app in Hd.
      unfold time_appended, tic_ok in Hd. rewrite Hl, Hst, Hc in Hd.
      simpl in Hd. lia.
    + apply IH; [|done].
      rewrite step_tic_times, step_spectrum_indices, !length_app.
      destruct (tic_ok r) eqn:Hok; simpl; [|lia].
      destruct (tic_ok_inv r Hok) as (t & c & Hl & Hst & _).
      unfold time_appended. rewrite Hl, Hst. simpl. lia.
Qed.

Section Redraw.

Context `{!ArgSort}.

(** A level-1 record whose retention time is returned and whose ion
    current lookup then raises leaves its time in the TIC times without an
    intensity. When the stream also has a level-1 record that reaches the
    TIC series, the load commits a TIC series with more times than
    intensities and the redraw raises the ValueError of the TIC plot: the
    load fails after the new TIC series has been assigned. *)
Theorem unreturned_tic_breaks_redraw cp path msrun s :
  Exists (fun r => tic_ok r = true) msrun ->
  Exists (fun r => ms_level r = Returns 1 /\
                   (exists t, scan_time_in_minutes r = Returns t) /\
                   TIC r = Raises) msrun ->
  (load_mzml_file cp path (Yields msrun) s).2 = Raise ValueError /\
  exists td,
    tic_data (load_mzml_file cp path (Yields msrun) s).1 = Some td /\
    indices td = tic_positions 0 msrun /\
    length (intensities td) < length (times td).
Proof.
  intros Hok Hbad.
  assert (Hne : spectrum_indices (loop_result cp path msrun s) ≠ []).
  { rewrite loop_result_indices. intros He%tic_positions_nil.
    apply Exists_exists in Hok as (r & Hin & Hr).
    rewrite Forall_forall in He. specialize (He r Hin). congruence. }
  assert (Hlen : length (tic_intensities (loop_result cp path msrun s))
                 < length (tic_times (loop_result cp path msrun s))).
  { unfold loop_result.
    rewrite for_loop_tic_intensities_length by done.
    by apply for_loop_times_longer. }
  pose proof (loop_result_indices cp path msrun s) as Hpos.
  unfold load_mzml_file. fold (loop_result cp path msrun s).
  set (f := loop_result cp path msrun s) in *.
  destruct (spectrum_indices f) as [|i0 rest] eqn:Hidx; [done|].
  destruct (lookup_lt_is_Some_2 (i0 :: rest) (length (i0 :: rest) / 2)) as [mid Hmid].
  { apply Nat.div_lt; simpl; lia. }
  unfold mbind, M_bind, modify, getitem. rewrite Hmid.
  unfold mret, M_ret, update_plots, plot_tic. simpl.
  rewrite decide_False by lia. simpl. split; [done|].
  eexists. split; [reflexivity|]. simpl. by split.
Qed.

End Redraw.

(** ** The further properties on concrete inputs *)

Lemma failed_load_keeps_tic_and_selection_witness :
  tic_data (load_mzml_file no_cancel "b.mzML" (Yields file_b)
              (show_loading_indicator loaded_a)).1 = Some tic_a /\
  current_spectrum_index (load_mzml_file no_cancel "b.mzML" (Yields file_b)
                            (show_loading_indicator loaded_a)).1 = 1.
Proof.
  destruct (failed_load_keeps_tic_and_selection no_cancel "b.mzML"
              (Yields file_b) (show_loading_indicator loaded_a)
              (or_intror eq_refl)) as (Ht & Hc & _).
  split; [exact Ht|exact Hc].
Defined.

Lemma load_tic_series_shape_witness :
  StronglySorted lt (indices tic_a) /\
  length (times tic_a) = length (indices tic_a).
Proof.
  assert (Hres : (load_mzml_file no_cancel "a.mzML" (Yields file_a) init).2
                 ≠ Raise NoMS1SpectraError) by (vm_compute; discriminate).
  destruct (load_tic_series_shape no_cancel "a.mzML" file_a init tic_a Hres
              eq_refl) as (_ & Hs & _ & _ & _ & Heq).
  split; [exact Hs|]. apply Heq.
  unfold file_a. repeat (constructor; [discriminate|]). constructor.
Defined.

Lemma load_selects_middle_witness :
  exists td,
    tic_data (load_mzml_file no_cancel "a.mzML" (Yields file_a) init).1 = Some td /\
    indices td !! (length (indices td) / 2)
    = Some (current_spectrum_index
              (load_mzml_file no_cancel "a.mzML" (Yields file_a) init).1).
Proof.
  destruct (load_selects_middle no_cancel "a.mzML" file_a init eq_refl)
    as (td & Ht & Hm & _).
  exists td. split; [exact Ht|exact Hm].
Defined.

Lemma load_commits_before_redraw_error_witness :
  exists td,
    tic_data (load_mzml_file no_cancel "u.mzML" (Yields unequal_stream) init).1 = Some td /\
    indices td = [0].
Proof.
  assert (Hne : IndexError ≠ NoMS1SpectraError) by discriminate.
  destruct (load_commits_before_redraw_error no_cancel "u.mzML" unequal_stream
              init IndexError eq_refl Hne) as (td & Ht & Hi & _).
  exists td. split; [exact Ht|exact Hi].
Defined.

Lemma unreturned_tic_breaks_redraw_witness :
  (load_mzml_file no_cancel "f.mzML" (Yields file_f) init).2 = Raise ValueError /\
  exists td,
    tic_data (load_mzml_file no_cancel "f.mzML" (Yields file_f) init).1 = Some td /\
    indices td = tic_positions 0 file_f /\
    length (intensities td) < length (times td).
Proof.
  apply (unreturned_tic_breaks_redraw no_cancel "f.mzML" file_f init).
  - unfold file_f. right. left. reflexivity.
  - unfold file_f. left. simpl. split; [reflexivity|]. split; [|reflexivity].
    exists 9%Q. reflexivity.
Defined.

Lemma complete_ms1_stream_indices_in_store_witness :
  exists e,
    spectra_data (load_mzml_file no_cancel "a.mzML" (Yields file_a) init).1 !! 2 = Some e /\
    e_index e = 2.
Proof.
  apply (complete_ms1_stream_indices_in_store no_cancel "a.mzML" file_a init
           tic_a 2).
  - unfold file_a. repeat (constructor; [intros _; simpl; eauto 10|]).
    constructor.
  - vm_compute. discriminate.
  - reflexivity.
  - simpl. do 2 apply list_elem_of_further. apply list_elem_of_here.
Defined.

Lemma selection_stays_in_tic_witness :
  current_spectrum_index (on_click click_between loaded_a).1 ∈ indices tic_a /\
  current_spectrum_index (on_left_arrow loaded_a).1 ∈ indices tic_a /\
  current_spectrum_index (on_right_arrow loaded_a).1 ∈ indices tic_a.
Proof.
  apply (selection_stays_in_tic loaded_a tic_a click_between).
  - reflexivity.
  - simpl. apply list_elem_of_further, list_elem_of_here.
Defined.

Lemma step_prev_next_round_trip_witness :
  current_spectrum_index (on_right_arrow (on_left_arrow loaded_a).1).1
  = current_spectrum_index loaded_a.
Proof.
  assert (Hnd : NoDup (indices tic_a)).
  { apply NoDup_ListNoDup. unfold tic_a. simpl.
    repeat constructor; simpl; intuition lia. }
  destruct (step_prev_next_round_trip loaded_a tic_a 1 eq_refl Hnd eq_refl)
    as [Hback _].
  apply Hback. lia.
Defined.

Lemma step_right_outcome_witness :
  on_right_arrow loaded_a
  = (set_status (SelectedRight 3%Q)
       (set_ax2_lim None (set_current_spectrum_index 2 loaded_a)), Ok tt).
Proof.
  assert (Hnd : NoDup (indices tic_a)).
  { apply NoDup_ListNoDup. unfold tic_a. simpl.
    repeat constructor; simpl; intuition lia. }
  destruct (step_right_outcome loaded_a tic_a 1 2 eq_refl Hnd eq_refl eq_refl)
    as (_ & Heq).
  destruct (Heq eq_refl) as (_ & Hok & _).
  apply (Hok {| e_rt := 3%Q; e_mz := PyArray [300%Q];
                e_intensities := PyArray [9%Q]; e_index := 2 |}
             ([300%Q], [9%Q], [0])); reflexivity.
Defined.

Lemma drag_zoom_commits_rectangle_witness :
  ax2_lim (on_mouse_release release_inside
             (on_mouse_move move_inside (on_click press_inside init).1))
  = Some ((Qmin 7 3, Qmax 7 3), (Qmin 8 12, Qmax 8 12)).
Proof.
  apply (drag_zoom_commits_rectangle init press_inside move_inside
           release_inside 7%Q 8%Q 3%Q 12%Q); reflexivity.
Defined.

Lemma click_without_drag_keeps_limits_witness :
  ax2_lim (on_mouse_release release_inside (on_click press_inside loaded_a).1)
  = ax2_lim loaded_a.
Proof.
  apply (click_without_drag_keeps_limits loaded_a press_inside release_inside);
    reflexivity.
Defined.

Lemma reset_mass_spectrum_zoom_contains_data_witness :
  exists lo hi top,
    reset_mass_spectrum_zoom loaded_a = Ok (Some ((lo, hi), (0%Q, top))) /\
    (lo == 200)%Q /\ (hi == 200)%Q.
Proof.
  assert (Hex : Exists (fun i => (0 < i)%Q) [7%Q]) by (left; reflexivity).
  destruct (reset_mass_spectrum_zoom_contains_data loaded_a entry_a1 [200%Q]
              [7%Q] eq_refl eq_refl eq_refl eq_refl Hex)
    as (lo & hi & top & Hr & _ & Hdeg).
  exists lo, hi, top. split; [exact Hr|].
  apply Hdeg. repeat constructor.
Defined.

Lemma reset_all_plots_tic_limits_witness :
  exists lo hi top,
    reset_all_plots loaded_a
    = Ok (Some ((lo, hi), (0%Q, top)), reset_mass_spectrum_zoom loaded_a) /\
    (lo <= 1)%Q /\ (3 <= hi)%Q.
Proof.
  assert (Ht : times tic_a ≠ []) by discriminate.
  assert (Hi : intensities tic_a ≠ []) by discriminate.
  destruct (reset_all_plots_tic_limits loaded_a tic_a eq_refl Ht Hi)
    as (lo & hi & top & Hr & Hin & _).
  exists lo, hi, top. split; [exact Hr|]. split.
  - apply (Hin 1%Q). apply list_elem_of_here.
  - apply (Hin 3%Q). do 2 apply list_elem_of_further. apply list_elem_of_here.
Defined.

Lemma on_scroll_zooms_about_anchor_witness :
  exists lo' hi' blo' bhi',
    ax2_lim (on_scroll shown_a scroll_in loaded_a)
    = Some ((lo', hi'), (blo', bhi')) /\
    (250 - lo' == (250 - 100) * scale_factor scroll_in)%Q.
Proof.
  assert (Hs : is_Some (spectra_data loaded_a !! current_spectrum_index loaded_a))
    by (exists entry_a1; reflexivity).
  assert (Hw : ~ (300 - 100 == 0)%Q) by (intros H; vm_compute in H; discriminate).
  assert (Hh : ~ (10 - 0 == 0)%Q) by (intros H; vm_compute in H; discriminate).
  destruct (on_scroll_zooms_about_anchor shown_a scroll_in loaded_a 250 4
              100 300 0 10 eq_refl Hs eq_refl eq_refl eq_refl Hw Hh)
    as (lo' & hi' & blo' & bhi' & Hr & Hx & _).
  exists lo', hi', blo', bhi'. split; [exact Hr|exact Hx].
Defined.

Lemma scroll_up_then_down_restores_witness :
  exists lo' hi' blo' bhi',
    ax2_lim (on_scroll shown_a scroll_out (on_scroll shown_a scroll_in loaded_a))
    = Some ((lo', hi'), (blo', bhi')) /\
    (lo' == 100)%Q /\ (hi' == 300)%Q.
Proof.
  assert (Hs : is_Some (spectra_data loaded_a !! current_spectrum_index loaded_a))
    by (exists entry_a1; reflexivity).
  assert (Hw : ~ (300 - 100 == 0)%Q) by (intros H; vm_compute in H; discriminate).
  assert (Hh : ~ (10 - 0 == 0)%Q) by (intros H; vm_compute in H; discriminate).
  destruct (scroll_up_then_down_restores shown_a scroll_in scroll_out loaded_a
              250 4 100 300 0 10 eq_refl eq_refl eq_refl eq_refl eq_refl eq_refl
              eq_refl eq_refl Hs eq_refl Hw Hh)
    as (lo' & hi' & blo' & bhi' & Hr & Hlo & Hhi & _).
  exists lo', hi', blo', bhi'. split; [exact Hr|]. split; [exact Hlo|exact Hhi].
Defined.
